(** * Traffic-score lookup of snow-space: embedding and properties

    The two scorer classes of the repository,
    [SimpleBramptonTrafficScorer] (traffic_scorer_simple.py) and
    [BramptonTrafficScorer] (traffic_scorer.py), are embedded as Rocq
    functions and their documented behaviour is checked against them.

    Numbers.  Python floats are modelled by exact rationals [Q]; the
    only irrational operation, the square root inside the KD-tree's
    Euclidean distance, sits behind the [Metric] interface.  Infinite
    distances, which SciPy reports for missing neighbours, are explicit
    ([dval]).  Rounding of float64 is not modelled.

    Effects.  A method is a state transformer over the object that also
    yields either a value or the exception that escapes the call
    ([M]).  [prepare_data] runs over the object paired with the files it
    reads and writes. *)

From Stdlib Require Import QArith Qabs Qminmax Qround ZArith List String Bool Lia Lqa PeanoNat DecimalString.
From Stdlib Require Import Sorting.Permutation Sorting.Sorted.
Import ListNotations.
Local Open Scope Q_scope.

(** ** Exceptions and results *)

(** The exceptions that can escape the modelled methods.  The first three
    are written as [raise] statements in the scorers; the others are raised
    by NumPy, SciPy or the interpreter underneath them and are named after
    their cause. *)
Inductive exn : Type :=
| RuntimeError (msg : string)      (* raise RuntimeError(msg) *)
| FileNotFoundError (msg : string) (* raise FileNotFoundError(msg) *)
| DownloadError (msg : string)     (* raise Exception(msg) / re-raise in the download helpers *)
| ScalarSubscript                  (* x[0] on a scalar *)
| IndexError                       (* array index out of bounds *)
| NoneSubscript                    (* None[...] *)
| EmptyReduction                   (* ValueError: zero-size array to reduction operation *)
| EmptyPercentile                  (* percentile of an empty array, where NumPy raises *)
| TreeShapeError.                  (* ValueError: cKDTree data must be of shape (n, m) *)

Inductive result (A : Type) : Type :=
| Ok (a : A)
| Raise (e : exn).
Arguments Ok {A} a.
Arguments Raise {A} e.

(** An exception is controlled when the scorer's own code raises it on
    purpose, with a [raise] statement. *)
Definition raised_by_scorer (e : exn) : bool :=
  match e with
  | RuntimeError _ | FileNotFoundError _ | DownloadError _ => true
  | _ => false
  end.

Definition returns {A} (r : result A) : Prop := exists a, r = Ok a.

(** ** Methods as state transformers *)

Module Method.

Definition M (S A : Type) : Type := S -> result A * S.

Definition ret {S A} (a : A) : M S A := fun s => (Ok a, s).
Definition raise {S A} (e : exn) : M S A := fun s => (Raise e, s).
Definition bind {S A B} (c : M S A) (k : A -> M S B) : M S B :=
  fun s => match c s with
           | (Ok a, s') => k a s'
           | (Raise e, s') => (Raise e, s')
           end.
Definition get {S} : M S S := fun s => (Ok s, s).
Definition put {S} (s : S) : M S unit := fun _ => (Ok tt, s).
Definition lift {S A} (r : result A) : M S A := fun s => (r, s).

(** [[f(x) for x in xs]]: left to right, the first exception ends it. *)
Fixpoint mapM {S A B} (f : A -> M S B) (xs : list A) : M S (list B) :=
  match xs with
  | [] => ret []
  | x :: xs' => bind (f x) (fun y => bind (mapM f xs') (fun ys => ret (y :: ys)))
  end.

End Method.
Import Method.

Declare Scope method_scope.
Delimit Scope method_scope with method.
Notation "x <- c ;; k" := (bind c (fun x => k))
  (at level 61, c at next level, right associativity) : method_scope.
Notation "c ;;; k" := (bind c (fun _ => k))
  (at level 61, right associativity) : method_scope.

(** ** NumPy operations on rationals *)

Definition point : Type := (Q * Q)%type.

(** A distance as the index reports it: finite, or [inf] for a neighbour
    that does not exist. *)
Inductive dval : Type :=
| Fin (d : Q)
| Inf.

Module Np.

(** [np.sum] *)
Definition sum (xs : list Q) : Q := fold_right Qplus 0 xs.

(** [np.clip(x, lo, hi)] is [minimum(maximum(x, lo), hi)]. *)
Definition clip (x lo hi : Q) : Q := Qmin (Qmax x lo) hi.

(** [xs * ys], elementwise on arrays of one shape. *)
Fixpoint mul (xs ys : list Q) : list Q :=
  match xs, ys with
  | x :: xs', y :: ys' => x * y :: mul xs' ys'
  | _, _ => []
  end.

(** [arr[indices]] with an integer index array: every index must be in
    range, else [IndexError]. *)
Fixpoint take (arr : list Q) (indices : list nat) : result (list Q) :=
  match indices with
  | [] => Ok []
  | i :: rest =>
      match nth_error arr i with
      | None => Raise IndexError
      | Some x =>
          match take arr rest with
          | Ok xs => Ok (x :: xs)
          | Raise e => Raise e
          end
      end
  end.

(** [1.0 / (distances + 1e-6)], elementwise; [1/inf] is [0]. *)
Definition eps : Q := 1 # 1000000.

Definition inv_eps (d : dval) : Q :=
  match d with
  | Fin q => 1 / (q + eps)
  | Inf => 0
  end.

(** [d > m] for a finite [m]. *)
Definition gt (d : dval) (m : Q) : bool :=
  match d with
  | Fin q => negb (Qle_bool q m)
  | Inf => true
  end.

End Np.

(** ** The spatial index (scipy.spatial.cKDTree) *)

(** The metric of the index.  SciPy's default is the Euclidean one; the
    development uses only that a distance is non-negative and that a point
    is at distance zero from itself. *)
Class Metric : Type := {
  dist : point -> point -> Q;
  dist_nonneg : forall p q, 0 <= dist p q;
  dist_self : forall p, dist p p == 0
}.

Module KDTree.
Section WithMetric.
Context {metric : Metric}.

(** [cKDTree(data)]: the tree answers queries over exactly [data]. *)
Record cKDTree : Type := build { data : list point }.

Definition size (t : cKDTree) : nat := List.length (data t).

(** Insertion of a (distance, index) pair, before the first pair that is
    not nearer: equal distances keep the order of the indices. *)
Fixpoint insert (e : Q * nat) (l : list (Q * nat)) : list (Q * nat) :=
  match l with
  | [] => [e]
  | h :: r => if Qle_bool (fst e) (fst h) then e :: h :: r else h :: insert e r
  end.

Definition sort (l : list (Q * nat)) : list (Q * nat) :=
  fold_right insert [] l.

(** All points of the tree with their distance to [x], nearest first. *)
Definition neighbours (t : cKDTree) (x : point) : list (Q * nat) :=
  sort (combine (map (dist x) (data t)) (seq 0 (size t))).

(** The [k] nearest, padded with [(inf, n)] for neighbours that do not
    exist. *)
Definition padded (t : cKDTree) (x : point) (k : nat) : list (dval * nat) :=
  firstn k (map (fun e => (Fin (fst e), snd e)) (neighbours t x)
            ++ repeat (Inf, size t) k).

(** What [tree.query(x, k=k)] hands back for one query point: arrays of
    length [k] when [k > 1], and a pair of scalars when [k = 1] (the last
    dimension is squeezed). *)
Inductive query_result : Type :=
| Scalars (d : dval) (i : nat)
| Arrays (distances : list dval) (indices : list nat).

Definition query (t : cKDTree) (x : point) (k : positive) : query_result :=
  let r := padded t x (Pos.to_nat k) in
  match k with
  | xH => match r with
          | (d, i) :: _ => Scalars d i
          | [] => Scalars Inf (size t)
          end
  | _ => Arrays (map fst r) (map snd r)
  end.

End WithMetric.
End KDTree.
Import KDTree.

(** ** Reductions over an array: percentile, minimum, maximum *)

Module Percentile.

Fixpoint insert (x : Q) (l : list Q) : list Q :=
  match l with
  | [] => [x]
  | h :: r => if Qle_bool x h then x :: h :: r else h :: insert x r
  end.

Definition sort (l : list Q) : list Q := fold_right insert [] l.

(** [np.percentile(xs, q)] with the default linear interpolation between
    the two order statistics around position [(n-1) * q / 100].

    On an empty array the outcome depends on the NumPy release: the call
    either raises or returns nan.  [nan_on_empty] selects the second; the
    value standing for nan is never looked at, because the only use of the
    percentile is to divide the (then empty) array by it. *)
Definition percentile (nan_on_empty : bool) (xs : list Q) (q : Q) : result Q :=
  match xs with
  | [] => if nan_on_empty then Ok 0 else Raise EmptyPercentile
  | _ :: _ =>
      let a := sort xs in
      let n := List.length xs in
      let h := (inject_Z (Z.of_nat (n - 1))) * q / 100 in
      let lo := Z.to_nat (Qfloor h) in
      let g := h - inject_Z (Qfloor h) in
      let x0 := nth lo a 0 in
      let x1 := nth (Nat.min (S lo) (n - 1)) a 0 in
      Ok (x0 + g * (x1 - x0))
  end.

(** [xs.min()] and [xs.max()]; a reduction over no element raises. *)
Definition min (xs : list Q) : result Q :=
  match xs with
  | [] => Raise EmptyReduction
  | x :: r => Ok (fold_right Qmin x r)
  end.

Definition max (xs : list Q) : result Q :=
  match xs with
  | [] => Raise EmptyReduction
  | x :: r => Ok (fold_right Qmax x r)
  end.

End Percentile.

(** [cKDTree(np.array(points))]: a list of pairs becomes an array of shape
    (n, 2); the empty list becomes an array of shape (0,), which the
    constructor rejects. *)
Definition cKDTree_of (points : list point) : result cKDTree :=
  match points with
  | [] => Raise TreeShapeError
  | _ :: _ => Ok (build points)
  end.

(** ** Ingestion: rows of the traffic-count table, road segments *)

Module Ingest.

Inductive geometry : Type :=
| Point (x y : Q)
| LineString (centroid : point)
| MultiLineString (centroid : point)
| OtherGeometry (geom_type : string).

(** A table cell: a number, nan, [None], or text that [float] rejects. *)
Inductive cell : Type :=
| Number (v : Q)
| NaN
| PyNone
| Text (s : string).

(** A Python float held in [volume]. *)
Inductive pyfloat : Type :=
| Val (v : Q)
| Nan.

Record row : Type := {
  geom : option geometry;
  columns : list (string * cell)
}.

(** [row[field]] when [field in row.index] *)
Fixpoint lookup (field : string) (cols : list (string * cell)) : option cell :=
  match cols with
  | [] => None
  | (name, c) :: rest => if String.eqb name field then Some c else lookup field rest
  end.

(** [volume > 0] and [volume <= 0]; both are false on nan. *)
Definition positive_volume (v : pyfloat) : bool :=
  match v with
  | Val q => negb (Qle_bool q 0)
  | Nan => false
  end.

Definition nonpositive_volume (v : pyfloat) : bool :=
  match v with
  | Val q => Qle_bool q 0
  | Nan => false
  end.

(** [[f'YEAR{year}' for year in range(2024, 1999, -1)]] *)
Definition year_field (year : nat) : string :=
  ("YEAR" ++ NilEmpty.string_of_uint (Nat.to_uint year))%string.

Definition year_fields : list string :=
  map (fun i => year_field (2024 - i)) (seq 0 25).

Definition fallback_fields : list string :=
  ["AADT"; "ADT"; "Volume"; "VOLUME"; "Traffic_Volume"; "Count"]%string.

(** The loop over the yearly columns: a present, non-null cell is converted
    and kept in [volume]; the loop stops at the first positive one.  Text
    makes [float] raise, which the loop swallows. *)
Fixpoint scan_years (cols : list (string * cell)) (fields : list string)
         (volume : option pyfloat) : option pyfloat :=
  match fields with
  | [] => volume
  | field :: rest =>
      match lookup field cols with
      | Some (Number v) =>
          if positive_volume (Val v) then Some (Val v)
          else scan_years cols rest (Some (Val v))
      | _ => scan_years cols rest volume
      end
  end.

(** The loop over the fallback columns: no null test here, so nan is
    converted and kept; [None] and text make [float] raise. *)
Fixpoint scan_fallback (cols : list (string * cell)) (fields : list string)
         (volume : option pyfloat) : option pyfloat :=
  match fields with
  | [] => volume
  | field :: rest =>
      match lookup field cols with
      | Some (Number v) =>
          if positive_volume (Val v) then Some (Val v)
          else scan_fallback cols rest (Some (Val v))
      | Some NaN => scan_fallback cols rest (Some Nan)
      | _ => scan_fallback cols rest volume
      end
  end.

Definition find_volume (cols : list (string * cell)) : option pyfloat :=
  let volume := scan_years cols year_fields None in
  match volume with
  | None => scan_fallback cols fallback_fields volume
  | Some v => if nonpositive_volume v then scan_fallback cols fallback_fields volume
              else volume
  end.

Definition coords_of (g : geometry) : option (list point) :=
  match g with
  | Point x y => Some [(x, y)]
  | LineString c | MultiLineString c => Some [c]
  | OtherGeometry _ => None
  end.

(** One turn of [for idx, row in gdf.iterrows()]: what is appended to
    [traffic_points_list] and [traffic_scores_list]. *)
Definition observations_of (r : row) : list (point * Q) :=
  match geom r with
  | None => []
  | Some g =>
      match coords_of g with
      | None => []
      | Some coords =>
          match find_volume (columns r) with
          | Some (Val v) =>
              if positive_volume (Val v) then map (fun c => (c, v)) coords else []
          | _ => []
          end
      end
  end.

Definition observations (gdf : list row) : list (point * Q) :=
  flat_map observations_of gdf.

(** A segment of the road network: the centroid of its geometry and its
    [highway] attribute, a label or a list of labels. *)
Inductive highway_attr : Type :=
| Label (s : string)
| Labels (l : list string).

Record road : Type := {
  centroid : point;
  highway : option highway_attr
}.

(** [road_type_scores.get(highway_type, 5000)] *)
Definition road_type_scores (highway_type : string) : Q :=
  if String.eqb highway_type "motorway" then 50000
  else if String.eqb highway_type "trunk" then 40000
  else if String.eqb highway_type "primary" then 30000
  else if String.eqb highway_type "secondary" then 20000
  else if String.eqb highway_type "tertiary" then 10000
  else if String.eqb highway_type "residential" then 2000
  else if String.eqb highway_type "unclassified" then 5000
  else 5000.

(** One turn of [for idx, road in self.road_network.iterrows()]; taking
    the first element of an empty list raises. *)
Definition estimate_of (r : road) : result (point * Q) :=
  match highway r with
  | None => Ok (centroid r, road_type_scores "unclassified")
  | Some (Label s) => Ok (centroid r, road_type_scores s)
  | Some (Labels (s :: _)) => Ok (centroid r, road_type_scores s)
  | Some (Labels []) => Raise IndexError
  end.

Fixpoint estimates (roads : list road) : result (list (point * Q)) :=
  match roads with
  | [] => Ok []
  | r :: rest =>
      match estimate_of r with
      | Raise e => Raise e
      | Ok o =>
          match estimates rest with
          | Raise e => Raise e
          | Ok os => Ok (o :: os)
          end
      end
  end.

End Ingest.

(** The pickled cache: the dictionary with the keys ['traffic_points'],
    ['traffic_scores'] and ['kdtree']. *)
Record cache_record : Type := {
  cached_points : list point;
  cached_scores : list Q;
  cached_kdtree : cKDTree
}.

(** [np.clip(traffic_volumes / max_traffic, 0, 1)] *)
Definition normalize (traffic_volumes : list Q) (max_traffic : Q) : list Q :=
  map (fun v => Np.clip (v / max_traffic) 0 1) traffic_volumes.

(** ** traffic_scorer_simple.py *)

Module Simple.
Section WithMetric.
Context {metric : Metric}.
Local Open Scope method_scope.

(** The attributes [__init__] sets; the three arrays start as [None]. *)
Record scorer : Type := {
  data_dir : string;
  kdtree : option cKDTree;
  traffic_points : option (list point);
  traffic_scores : option (list Q)
}.

Definition init (dir : string) : scorer :=
  {| data_dir := dir; kdtree := None; traffic_points := None; traffic_scores := None |}.

Definition set_kdtree (self : scorer) (t : cKDTree) : scorer :=
  {| data_dir := data_dir self; kdtree := Some t;
     traffic_points := traffic_points self; traffic_scores := traffic_scores self |}.
Definition set_traffic_points (self : scorer) (p : list point) : scorer :=
  {| data_dir := data_dir self; kdtree := kdtree self;
     traffic_points := Some p; traffic_scores := traffic_scores self |}.
Definition set_traffic_scores (self : scorer) (s : list Q) : scorer :=
  {| data_dir := data_dir self; kdtree := kdtree self;
     traffic_points := traffic_points self; traffic_scores := Some s |}.

(** The files under [data_dir] that [prepare_data] touches:
    simple_scorer_cache.pkl and brampton_traffic.geojson. *)
Record files : Type := {
  cache_file : option cache_record;
  traffic_file : option (list Ingest.row)
}.

Definition write_cache (fs : files) (c : cache_record) : files :=
  {| cache_file := Some c; traffic_file := traffic_file fs |}.

Definition assign (f : scorer -> scorer) : M (scorer * files) unit :=
  fun st => (Ok tt, (f (fst st), snd st)).

(** [prepare_data(self)] *)
Definition prepare_data (nan_on_empty : bool) : M (scorer * files) unit :=
  st <- get ;;
  let fs := snd st in
  match cache_file fs with
  | Some cache =>
      assign (fun self => set_traffic_points self (cached_points cache)) ;;;
      assign (fun self => set_traffic_scores self (cached_scores cache)) ;;;
      assign (fun self => set_kdtree self (cached_kdtree cache)) ;;;
      ret tt
  | None =>
      match traffic_file fs with
      | None => raise (FileNotFoundError "Traffic data not found")
      | Some gdf =>
          let obs := Ingest.observations gdf in
          let traffic_points_list := map fst obs in
          let traffic_scores_list := map snd obs in
          assign (fun self => set_traffic_points self traffic_points_list) ;;;
          let traffic_volumes := traffic_scores_list in
          _ <- lift (Percentile.min traffic_volumes) ;;
          _ <- lift (Percentile.max traffic_volumes) ;;
          max_traffic <- lift (Percentile.percentile nan_on_empty traffic_volumes 95) ;;
          let scores := normalize traffic_volumes max_traffic in
          assign (fun self => set_traffic_scores self scores) ;;;
          tree <- lift (cKDTree_of traffic_points_list) ;;
          assign (fun self => set_kdtree self tree) ;;;
          (fun st' =>
             (Ok tt, (fst st',
                      write_cache (snd st')
                        {| cached_points := traffic_points_list;
                           cached_scores := scores;
                           cached_kdtree := tree |})))
      end
  end.

Definition default_k : positive := 5%positive.
Definition default_max_distance : Q := 2 # 100.

(** [self.traffic_scores[indices]] *)
Definition scores_at (self : scorer) (indices : list nat) : result (list Q) :=
  match traffic_scores self with
  | None => Raise NoneSubscript
  | Some arr => Np.take arr indices
  end.

(** [get_traffic_score(self, lon, lat, k=5, max_distance=0.02)] *)
Definition get_traffic_score (lon lat : Q) (k : positive) (max_distance : Q)
  : M scorer Q :=
  self <- get ;;
  match kdtree self with
  | None => raise (RuntimeError "Data not prepared. Call prepare_data() first.")
  | Some tree =>
      let query_point := (lon, lat) in
      match query tree query_point k with
      | Scalars _ _ => raise ScalarSubscript
      | Arrays distances indices =>
          match distances with
          | [] => raise IndexError
          | nearest :: _ =>
              if Np.gt nearest max_distance then ret 0
              else
                let weights := map Np.inv_eps distances in
                let total := Np.sum weights in
                let weights := map (fun w => w / total) weights in
                picked <- lift (scores_at self indices) ;;
                let score := Np.sum (Np.mul picked weights) in
                ret (Np.clip score 0 1)
          end
      end
  end.

(** [batch_score(self, coordinates)] *)
Definition batch_score (coordinates : list point) : M scorer (list Q) :=
  mapM (fun c => get_traffic_score (fst c) (snd c) default_k default_max_distance)
       coordinates.

End WithMetric.
End Simple.

(** ** traffic_scorer.py *)

Module Hybrid.
Section WithMetric.
Context {metric : Metric}.
Local Open Scope method_scope.

Record scorer : Type := {
  data_dir : string;
  traffic_data : option (list Ingest.row);
  road_network : option (list Ingest.road);
  kdtree : option cKDTree;
  traffic_points : option (list point);
  traffic_scores : option (list Q);
  interpolator : option unit
}.

Definition init (dir : string) : scorer :=
  {| data_dir := dir; traffic_data := None; road_network := None;
     kdtree := None; traffic_points := None; traffic_scores := None;
     interpolator := None |}.

Definition set_traffic_data (self : scorer) (d : list Ingest.row) : scorer :=
  {| data_dir := data_dir self; traffic_data := Some d;
     road_network := road_network self; kdtree := kdtree self;
     traffic_points := traffic_points self; traffic_scores := traffic_scores self;
     interpolator := interpolator self |}.
Definition set_road_network (self : scorer) (r : list Ingest.road) : scorer :=
  {| data_dir := data_dir self; traffic_data := traffic_data self;
     road_network := Some r; kdtree := kdtree self;
     traffic_points := traffic_points self; traffic_scores := traffic_scores self;
     interpolator := interpolator self |}.
Definition set_kdtree (self : scorer) (t : cKDTree) : scorer :=
  {| data_dir := data_dir self; traffic_data := traffic_data self;
     road_network := road_network self; kdtree := Some t;
     traffic_points := traffic_points self; traffic_scores := traffic_scores self;
     interpolator := interpolator self |}.
Definition set_traffic_points (self : scorer) (p : list point) : scorer :=
  {| data_dir := data_dir self; traffic_data := traffic_data self;
     road_network := road_network self; kdtree := kdtree self;
     traffic_points := Some p; traffic_scores := traffic_scores self;
     interpolator := interpolator self |}.
Definition set_traffic_scores (self : scorer) (s : list Q) : scorer :=
  {| data_dir := data_dir self; traffic_data := traffic_data self;
     road_network := road_network self; kdtree := kdtree self;
     traffic_points := traffic_points self; traffic_scores := Some s;
     interpolator := interpolator self |}.

(** What [prepare_data] reads and writes: scorer_cache.pkl, and the two
    download helpers, taken by their outcome (a table, or the exception
    they let escape). *)
Record files : Type := {
  cache_file : option cache_record;
  download_traffic_data : result (list Ingest.row);
  download_road_network : result (list Ingest.road)
}.

Definition write_cache (fs : files) (c : cache_record) : files :=
  {| cache_file := Some c;
     download_traffic_data := download_traffic_data fs;
     download_road_network := download_road_network fs |}.

Definition assign (f : scorer -> scorer) : M (scorer * files) unit :=
  fun st => (Ok tt, (f (fst st), snd st)).

(** [prepare_data(self)] *)
Definition prepare_data (nan_on_empty : bool) : M (scorer * files) unit :=
  st <- get ;;
  let fs := snd st in
  match cache_file fs with
  | Some cache =>
      assign (fun self => set_traffic_points self (cached_points cache)) ;;;
      assign (fun self => set_traffic_scores self (cached_scores cache)) ;;;
      assign (fun self => set_kdtree self (cached_kdtree cache)) ;;;
      ret tt
  | None =>
      gdf <- lift (download_traffic_data fs) ;;
      assign (fun self => set_traffic_data self gdf) ;;;
      roads <- lift (download_road_network fs) ;;
      assign (fun self => set_road_network self roads) ;;;
      let obs := Ingest.observations gdf in
      est <- lift (Ingest.estimates roads) ;;
      let traffic_points_list := map fst obs ++ map fst est in
      let traffic_scores_list := map snd obs ++ map snd est in
      assign (fun self => set_traffic_points self traffic_points_list) ;;;
      let traffic_volumes := traffic_scores_list in
      max_traffic <- lift (Percentile.percentile nan_on_empty traffic_volumes 95) ;;
      let scores := normalize traffic_volumes max_traffic in
      assign (fun self => set_traffic_scores self scores) ;;;
      tree <- lift (cKDTree_of traffic_points_list) ;;
      assign (fun self => set_kdtree self tree) ;;;
      (fun st' =>
         (Ok tt, (fst st',
                  write_cache (snd st')
                    {| cached_points := traffic_points_list;
                       cached_scores := scores;
                       cached_kdtree := tree |})))
  end.

Definition default_k : positive := 5%positive.
Definition default_max_distance : Q := 1 # 100.

(** [self.traffic_scores[indices]] *)
Definition scores_at (self : scorer) (indices : list nat) : result (list Q) :=
  match traffic_scores self with
  | None => Raise NoneSubscript
  | Some arr => Np.take arr indices
  end.

(** [get_traffic_score(self, lon, lat, k=5, max_distance=0.01)] *)
Definition get_traffic_score (lon lat : Q) (k : positive) (max_distance : Q)
  : M scorer Q :=
  self <- get ;;
  match kdtree self with
  | None => raise (RuntimeError "Data not prepared. Call prepare_data() first.")
  | Some tree =>
      let query_point := (lon, lat) in
      match query tree query_point k with
      | Scalars _ _ => raise ScalarSubscript
      | Arrays distances indices =>
          match distances with
          | [] => raise IndexError
          | nearest :: _ =>
              if Np.gt nearest max_distance then ret 0
              else
                let weights := map Np.inv_eps distances in
                let total := Np.sum weights in
                let weights := map (fun w => w / total) weights in
                picked <- lift (scores_at self indices) ;;
                let score := Np.sum (Np.mul picked weights) in
                ret (Np.clip score 0 1)
          end
      end
  end.

(** [batch_score(self, coordinates)] *)
Definition batch_score (coordinates : list point) : M scorer (list Q) :=
  mapM (fun c => get_traffic_score (fst c) (snd c) default_k default_max_distance)
       coordinates.

End WithMetric.
End Hybrid.

(** ** The Euclidean metric *)

(** Square root on rationals, rounded down to a multiple of
    [1 / (den * 10^12)]; exact whenever the argument is the square of a
    rational. *)
Definition Qsqrt (x : Q) : Q :=
  Z.sqrt (Qnum x * Zpos (Qden x) * 10 ^ 24) # (Qden x * 10 ^ 12).

Definition euclidean (p q : point) : Q :=
  let dx := fst p - fst q in
  let dy := snd p - snd q in
  Qsqrt (dx * dx + dy * dy).

#[export] Instance euclid : Metric.
Proof.
  refine {| dist := euclidean |}.
  - intros p q. unfold euclidean, Qsqrt, Qle; simpl.
    rewrite Z.mul_1_r. apply Z.sqrt_nonneg.
  - intros [[xn xd] [yn yd]]. unfold euclidean, Qsqrt, Qeq; simpl.
    replace ((xn * Z.pos xd + - xn * Z.pos xd) * (xn * Z.pos xd + - xn * Z.pos xd)
             * Z.pos (yd * yd * (yd * yd))
             + (yn * Z.pos yd + - yn * Z.pos yd) * (yn * Z.pos yd + - yn * Z.pos yd)
               * Z.pos (xd * xd * (xd * xd)))%Z with 0%Z by ring.
    reflexivity.
Defined.

(** ** Vocabulary of the specification *)

Section Vocabulary.
Context {metric : Metric}.

(** A prepared scorer: the three arrays are set, the index is built over
    exactly the stored locations, scores and locations are aligned, and
    every score lies in [0, 1]. *)
Definition simple_prepared (s : Simple.scorer) (pts : list point) (scs : list Q) : Prop :=
  Simple.traffic_points s = Some pts /\
  Simple.traffic_scores s = Some scs /\
  Simple.kdtree s = Some (build pts) /\
  List.length scs = List.length pts /\
  Forall (fun v => 0 <= v <= 1) scs.

Definition hybrid_prepared (h : Hybrid.scorer) (pts : list point) (scs : list Q) : Prop :=
  Hybrid.traffic_points h = Some pts /\
  Hybrid.traffic_scores h = Some scs /\
  Hybrid.kdtree h = Some (build pts) /\
  List.length scs = List.length pts /\
  Forall (fun v => 0 <= v <= 1) scs.

(** The part of a hybrid scorer that the queries read, as a simple one. *)
Definition to_simple (h : Hybrid.scorer) : Simple.scorer :=
  {| Simple.data_dir := Hybrid.data_dir h;
     Simple.kdtree := Hybrid.kdtree h;
     Simple.traffic_points := Hybrid.traffic_points h;
     Simple.traffic_scores := Hybrid.traffic_scores h |}.

(** [d] is the distance from [x] to the nearest of [pts]. *)
Definition nearest_distance (pts : list point) (x : point) (d : Q) : Prop :=
  In d (map (dist x) pts) /\ forall d', In d' (map (dist x) pts) -> d <= d'.




(** The outcome of one single-point call, without the object. *)
Definition simple_score (s : Simple.scorer) (lon lat : Q) (k : positive) (md : Q)
  : result Q :=
  fst (Simple.get_traffic_score lon lat k md s).

Definition hybrid_score (h : Hybrid.scorer) (lon lat : Q) (k : positive) (md : Q)
  : result Q :=
  fst (Hybrid.get_traffic_score lon lat k md h).

Definition not_prepared : exn :=
  RuntimeError "Data not prepared. Call prepare_data() first.".

(** Order of the index entries: by distance. *)
Definition nearer (a b : Q * nat) : Prop := fst a <= fst b.

(** An entry of the index as the query reports it. *)
Definition finite (e : Q * nat) : dval * nat := (Fin (fst e), snd e).

(** The value the code computes from the [k] nearest entries of the index. *)
Definition code_value (scs : list Q) (nb : list (Q * nat)) : Q :=
  let total := Np.sum (map (fun e => 1 / (fst e + Np.eps)) nb) in
  Np.clip (Np.sum (map (fun e => nth (snd e) scs 0 * (1 / (fst e + Np.eps) / total)) nb)) 0 1.


(** The single-point call with the default [k] and [max_distance]. *)
Definition simple_default (s : Simple.scorer) (c : point) : result Q :=
  simple_score s (fst c) (snd c) Simple.default_k Simple.default_max_distance.

Definition hybrid_default (h : Hybrid.scorer) (c : point) : result Q :=
  hybrid_score h (fst c) (snd c) Hybrid.default_k Hybrid.default_max_distance.

End Vocabulary.

(** ** A small data set

    Two counting stations 0.005 degrees apart (a 3-4-5 triangle, so the
    Euclidean distance is exact), with volumes 100 and 10: the 95th
    percentile is 95.5 and the scores are 1 and 10/95.5. *)

Definition station_a : Ingest.row :=
  {| Ingest.geom := Some (Ingest.Point 0 0);
     Ingest.columns := [("YEAR2023"%string, Ingest.Number 100)] |}.

Definition station_b : Ingest.row :=
  {| Ingest.geom := Some (Ingest.Point (3 # 1000) (4 # 1000));
     Ingest.columns := [("AADT"%string, Ingest.Number 10)] |}.

(** A station whose only reading is zero: it yields no observation. *)
Definition station_idle : Ingest.row :=
  {| Ingest.geom := Some (Ingest.Point 0 0);
     Ingest.columns := [("YEAR2023"%string, Ingest.Number 0)] |}.

Definition two_station_files : Simple.files :=
  {| Simple.cache_file := None; Simple.traffic_file := Some [station_a; station_b] |}.

Definition idle_files : Simple.files :=
  {| Simple.cache_file := None; Simple.traffic_file := Some [station_idle] |}.

(** The simple scorer after [prepare_data] over the two stations. *)
Definition two_stations : Simple.scorer :=
  fst (snd (Simple.prepare_data false (Simple.init "data", two_station_files))).

Definition two_station_points : list point := [(0, 0); (3 # 1000, 4 # 1000)].
Definition two_station_scores : list Q := [1; 1000 # 9550].

(** The hybrid scorer over the same two stations and no road. *)
Definition two_station_sources : Hybrid.files :=
  {| Hybrid.cache_file := None;
     Hybrid.download_traffic_data := Ok [station_a; station_b];
     Hybrid.download_road_network := Ok [] |}.

Definition two_stations_hybrid : Hybrid.scorer :=
  fst (snd (Hybrid.prepare_data false (Hybrid.init "data", two_station_sources))).

Definition idle_sources : Hybrid.files :=
  {| Hybrid.cache_file := None;
     Hybrid.download_traffic_data := Ok [station_idle];
     Hybrid.download_road_network := Ok [] |}.

(** Five stations on a line, one thousandth of a degree apart, with
    volumes 10 to 50: enough points for the default [k = 5]. *)
Definition station_at (x v : Q) : Ingest.row :=
  {| Ingest.geom := Some (Ingest.Point x 0);
     Ingest.columns := [("AADT"%string, Ingest.Number v)] |}.

Definition five_station_files : Simple.files :=
  {| Simple.cache_file := None;
     Simple.traffic_file :=
       Some [station_at 0 10; station_at (1 # 1000) 20; station_at (2 # 1000) 30;
             station_at (3 # 1000) 40; station_at (4 # 1000) 50] |}.

Definition five_stations : Simple.scorer :=
  fst (snd (Simple.prepare_data false (Simple.init "data", five_station_files))).

Definition five_station_points : list point :=
  [(0, 0); (1 # 1000, 0); (2 # 1000, 0); (3 # 1000, 0); (4 # 1000, 0)].

Definition five_station_scores : list Q :=
  Eval vm_compute in
    match Simple.traffic_scores five_stations with
    | Some scores => scores
    | None => []
    end.

(** ** Vocabulary for the ingestion *)

(** The column [field] of a row does not hold a positive number: it is
    absent, null, text, or a number that is zero or negative. *)
Definition not_positive_in (cols : list (string * Ingest.cell)) (field : string) : Prop :=
  forall v, Ingest.lookup field cols = Some (Ingest.Number v) -> v <= 0.

(** A row with readings for three years, the newest of them zero, and a
    fallback column. *)
Definition station_years : Ingest.row :=
  {| Ingest.geom := Some (Ingest.LineString (1 # 100, 2 # 100));
     Ingest.columns := [("YEAR2021"%string, Ingest.Number 7);
                        ("YEAR2023"%string, Ingest.Number 0);
                        ("YEAR2022"%string, Ingest.Number 9);
                        ("AADT"%string, Ingest.Number 5)] |}.

(** A row whose yearly readings are null and whose first fallback column
    holds text. *)
Definition station_fallback : Ingest.row :=
  {| Ingest.geom := Some (Ingest.Point 0 0);
     Ingest.columns := [("YEAR2023"%string, Ingest.NaN);
                        ("AADT"%string, Ingest.Text "n/a");
                        ("Count"%string, Ingest.Number 12)] |}.

(** The two stations and one motorway segment, as the hybrid scorer
    downloads them. *)
Definition motorway_segment : Ingest.road :=
  {| Ingest.centroid := (6 # 1000, 8 # 1000);
     Ingest.highway := Some (Ingest.Labels ["motorway"; "trunk"]%string) |}.

Definition stations_and_motorway : Hybrid.files :=
  {| Hybrid.cache_file := None;
     Hybrid.download_traffic_data := Ok [station_a; station_b];
     Hybrid.download_road_network := Ok [motorway_segment] |}.

(** ** traffic_scorer.py: the download helpers

    What the helpers read from the disk and from the network is taken by
    its outcome: a table, or the exception the reading call raises.  The
    order of the attempts, what is skipped and what is written are the
    code's; printing is left out. *)

Module Downloads.

Definition table : Type := list Ingest.row.

(** [c.lower()].  Only the ASCII capitals matter here: no other character
    lower-cases to a letter of the names looked for. *)
Definition lower_ascii (c : Ascii.ascii) : Ascii.ascii :=
  let n := Ascii.nat_of_ascii c in
  if (65 <=? n)%nat && (n <=? 90)%nat then Ascii.ascii_of_nat (n + 32) else c.

Fixpoint lower (s : string) : string :=
  match s with
  | EmptyString => EmptyString
  | String c rest => String (lower_ascii c) (lower rest)
  end.

Definition is_named (names : list string) (c : string) : bool :=
  existsb (String.eqb (lower c)) names.

(** [next((c for c in df.columns if c.lower() in names), None)] *)
Definition find_column (names : list string) (columns : list string) : option string :=
  find (is_named names) columns.

Definition lat_names : list string := ["latitude"; "lat"; "y"]%string.
Definition lon_names : list string := ["longitude"; "lon"; "long"; "x"]%string.

(** A CSV file as [pd.read_csv] returns it: its column names, and what
    building the point geometries from a longitude and a latitude column
    gives. *)
Record csv_frame : Type := {
  csv_columns : list string;
  with_points : string -> string -> result table
}.

(** A candidate file: absent, or present with the outcome of reading it;
    the suffix of its name decides how it is read. *)
Inductive manual_file : Type :=
| Absent
| GeoJson (read : result table)
| Csv (read : result csv_frame).

(** The four candidates of the data directory. *)
Record disk : Type := {
  brampton_geojson : option (result table);
  brampton_csv : option (result csv_frame);
  city_geojson : option (result table);
  city_csv : option (result csv_frame)
}.

(** [manual_files], in the order of the list: brampton_traffic.geojson,
    brampton_traffic.csv, City_of_Brampton_Traffic_Volumes.geojson and
    City_of_Brampton_Traffic_Volumes.csv. *)
Definition manual_files (d : disk) : list manual_file :=
  [match brampton_geojson d with Some r => GeoJson r | None => Absent end;
   match brampton_csv d with Some r => Csv r | None => Absent end;
   match city_geojson d with Some r => GeoJson r | None => Absent end;
   match city_csv d with Some r => Csv r | None => Absent end].

(** What writing a file does: the call returns and the file reads back as
    [reread], or the call raises and leaves the file in the state [remains]
    (no file, or one that reads as given). *)
Inductive write_outcome (A : Type) : Type :=
| Written (reread : result A)
| WriteFailed (e : exn) (remains : option (result A)).
Arguments Written {A} reread.
Arguments WriteFailed {A} e remains.

(** The network and the writing: the outcome of each download attempt,
    and of [gdf.to_file(save_path)]. *)
Record network : Type := {
  direct : result table;
  api : result table;
  to_file : table -> write_outcome table
}.

(** One turn of the loop over the manual files: [Some] when the turn
    returns a table, [None] when the loop goes on (the file is absent,
    reading it raised, or it is a CSV without a latitude and a longitude
    column). *)
Definition load_manual (f : manual_file) : option table :=
  match f with
  | Absent => None
  | GeoJson (Ok gdf) => Some gdf
  | GeoJson (Raise _) => None
  | Csv (Raise _) => None
  | Csv (Ok df) =>
      match find_column lat_names (csv_columns df),
            find_column lon_names (csv_columns df) with
      | Some lat_col, Some lon_col =>
          match with_points df lon_col lat_col with
          | Ok gdf => Some gdf
          | Raise _ => None
          end
      | _, _ => None
      end
  end.

Fixpoint first_manual (files : list manual_file) : option table :=
  match files with
  | [] => None
  | f :: rest =>
      match load_manual f with
      | Some gdf => Some gdf
      | None => first_manual rest
      end
  end.

(** The state of brampton_traffic.geojson after a write. *)
Definition put_geojson (d : disk) (f : option (result table)) : disk :=
  {| brampton_geojson := f;
     brampton_csv := brampton_csv d;
     city_geojson := city_geojson d;
     city_csv := city_csv d |}.

Definition failure_message : string :=
  "Could not download traffic data automatically. Please download manually (see instructions above).".

(** The loop over the download attempts: an attempt returns when the
    download and the saving both went through; any exception moves on to
    the next attempt. *)
Fixpoint first_download (net : network) (attempts : list (result table))
  : M disk table :=
  fun d =>
    match attempts with
    | [] => (Raise (DownloadError failure_message), d)
    | attempt :: rest =>
        match attempt with
        | Ok gdf =>
            match to_file net gdf with
            | Written reread => (Ok gdf, put_geojson d (Some reread))
            | WriteFailed _ remains => first_download net rest (put_geojson d remains)
            end
        | Raise _ => first_download net rest d
        end
    end.

(** [download_traffic_data(self)] *)
Definition download_traffic_data (net : network) : M disk table :=
  fun d =>
    match first_manual (manual_files d) with
    | Some gdf => (Ok gdf, d)
    | None => first_download net [direct net; api net] d
    end.

(** brampton_roads.pkl: absent, or present with what [pickle.load] gives. *)
Record road_store : Type := {
  roads_cache : option (result (list Ingest.road))
}.

(** [download_road_network(self)]: [osm] is the outcome of the two OSMnx
    calls, [dump] that of opening the cache file and [pickle.dump]. *)
Definition download_road_network (osm : result (list Ingest.road))
    (dump : list Ingest.road -> write_outcome (list Ingest.road))
  : M road_store (list Ingest.road) :=
  fun st =>
    match roads_cache st with
    | Some loaded => (loaded, st)
    | None =>
        match osm with
        | Ok roads =>
            match dump roads with
            | Written reread => (Ok roads, {| roads_cache := Some reread |})
            | WriteFailed e remains => (Raise e, {| roads_cache := remains |})
            end
        | Raise e => (Raise e, st)
        end
    end.

(** An attempt that does not return: the download raised, or the saving
    did. *)
Definition attempt_fails (net : network) (attempt : result table) : Prop :=
  match attempt with
  | Raise _ => True
  | Ok gdf => exists e remains, to_file net gdf = WriteFailed e remains
  end.

(** [c] is the leftmost of the columns whose lower-cased name is among
    [names]. *)
Definition leftmost (names columns : list string) (c : string) : Prop :=
  exists before after,
    columns = before ++ c :: after /\
    In (lower c) names /\
    forall b, In b before -> ~ In (lower b) names.

End Downloads.

(** A CSV file with projected and geographic coordinate columns, and a
    disk that holds it beside an unreadable GeoJSON file. *)
Definition xy_frame : Downloads.csv_frame :=
  {| Downloads.csv_columns := ["ID"; "X"; "Latitude"; "Y"; "LONG"]%string;
     Downloads.with_points := fun lon lat =>
       if String.eqb lon "X" && String.eqb lat "Latitude"
       then Ok [station_a] else Raise IndexError |}.

Definition manual_disk : Downloads.disk :=
  {| Downloads.brampton_geojson := Some (Raise IndexError);
     Downloads.brampton_csv := Some (Ok xy_frame);
     Downloads.city_geojson := Some (Ok [station_b]);
     Downloads.city_csv := None |}.

Definition empty_disk : Downloads.disk :=
  {| Downloads.brampton_geojson := None;
     Downloads.brampton_csv := None;
     Downloads.city_geojson := None;
     Downloads.city_csv := None |}.

Definition offline : Downloads.network :=
  {| Downloads.direct := Raise (DownloadError "no route");
     Downloads.api := Raise (DownloadError "no route");
     Downloads.to_file := fun gdf => Downloads.Written (Ok gdf) |}.

Definition api_only : Downloads.network :=
  {| Downloads.direct := Raise (DownloadError "not found");
     Downloads.api := Ok [station_a; station_b];
     Downloads.to_file := fun gdf => Downloads.Written (Ok gdf) |}.

(** * Properties *)

(** ** The index returns the nearest points, nearest first *)

Section IndexFacts.
Context {metric : Metric}.

Lemma insert_perm (e : Q * nat) (l : list (Q * nat)) :
  Permutation (KDTree.insert e l) (e :: l).
Proof.
  induction l as [|h r IH]; simpl.
  - apply Permutation_refl.
  - destruct (Qle_bool (fst e) (fst h)).
    + apply Permutation_refl.
    + eapply perm_trans; [apply perm_skip, IH | apply perm_swap].
Qed.

Lemma sort_perm (l : list (Q * nat)) : Permutation (KDTree.sort l) l.
Proof.
  induction l as [|h r IH]; simpl.
  - constructor.
  - eapply perm_trans; [apply insert_perm | apply perm_skip, IH].
Qed.

Lemma insert_sorted (e : Q * nat) (l : list (Q * nat)) :
  StronglySorted nearer l -> StronglySorted nearer (KDTree.insert e l).
Proof.
  induction 1 as [|h r Hs IH Hall]; simpl.
  - repeat constructor.
  - destruct (Qle_bool (fst e) (fst h)) eqn:E.
    + apply Qle_bool_iff in E.
      constructor; [constructor; assumption|].
      constructor; [exact E|].
      eapply Forall_impl; [|exact Hall].
      intros a Ha. unfold nearer in *. eapply Qle_trans; eassumption.
    + constructor; [exact IH|].
      eapply Permutation_Forall; [apply Permutation_sym, insert_perm|].
      constructor; [|exact Hall].
      unfold nearer. apply Qlt_le_weak, Qnot_le_lt.
      intro H. apply Qle_bool_iff in H. congruence.
Qed.

Lemma sort_sorted (l : list (Q * nat)) : StronglySorted nearer (KDTree.sort l).
Proof.
  induction l; simpl; [constructor | apply insert_sorted; assumption].
Qed.

Lemma neighbours_length (t : cKDTree) (x : point) :
  List.length (neighbours t x) = size t.
Proof.
  unfold neighbours.
  rewrite (Permutation_length (sort_perm _)), length_combine, length_map, length_seq.
  unfold size. apply Nat.min_id.
Qed.

Lemma in_combine_seq {A} (l : list A) (a : A) (i start : nat) :
  In (a, i) (combine l (seq start (List.length l))) ->
  (start <= i)%nat /\ nth_error l (i - start) = Some a.
Proof.
  revert start. induction l as [|h r IH]; simpl; intros start H; [contradiction|].
  destruct H as [H|H].
  - inversion H; subst. rewrite Nat.sub_diag. split; [lia | reflexivity].
  - apply IH in H. destruct H as [Hle Hn]. split; [lia|].
    replace (i - start)%nat with (S (i - S start)) by lia. exact Hn.
Qed.

(** Every entry the index holds is a point of the data with its distance. *)
Lemma neighbours_sound (t : cKDTree) (x : point) (d : Q) (i : nat) :
  In (d, i) (neighbours t x) ->
  exists p, nth_error (data t) i = Some p /\ d = dist x p.
Proof.
  intro H. unfold neighbours in H.
  apply (Permutation_in _ (sort_perm _)) in H.
  unfold size in H. rewrite <- (length_map (dist x)) in H.
  apply in_combine_seq in H. destruct H as [_ H].
  rewrite Nat.sub_0_r, nth_error_map in H.
  destruct (nth_error (data t) i) as [p|]; simpl in H; [|discriminate].
  exists p. split; [reflexivity | congruence].
Qed.

Lemma neighbours_index_bound (t : cKDTree) (x : point) (d : Q) (i : nat) :
  In (d, i) (neighbours t x) -> (i < size t)%nat.
Proof.
  intro H. apply neighbours_sound in H. destruct H as [p [Hp _]].
  apply nth_error_Some. congruence.
Qed.

Lemma combine_seq_complete {A} (l : list A) (a : A) (start : nat) :
  In a l -> exists i, In (a, i) (combine l (seq start (List.length l))).
Proof.
  revert start. induction l as [|h r IH]; simpl; intros start H; [contradiction|].
  destruct H as [H|H].
  - subst. exists start. left. reflexivity.
  - destruct (IH (S start) H) as [i Hi]. exists i. right. exact Hi.
Qed.

(** Every point of the data is held by the index. *)
Lemma neighbours_complete (t : cKDTree) (x p : point) :
  In p (data t) -> exists i, In (dist x p, i) (neighbours t x).
Proof.
  intro H. unfold neighbours, size.
  rewrite <- (length_map (dist x)).
  destruct (combine_seq_complete (map (dist x) (data t)) (dist x p) 0) as [i Hi].
  - apply in_map. exact H.
  - exists i. eapply Permutation_in; [apply Permutation_sym, sort_perm | exact Hi].
Qed.

Lemma neighbours_ascending (t : cKDTree) (x : point) :
  StronglySorted nearer (neighbours t x).
Proof. apply sort_sorted. Qed.

End IndexFacts.

(** ** Sums, weights and clipping *)

Section NumericFacts.

Lemma sum_mul_map {A} (f g : A -> Q) (l : list A) :
  Np.sum (Np.mul (map f l) (map g l)) = Np.sum (map (fun e => f e * g e) l).
Proof.
  induction l as [|a l IH]; [reflexivity|].
  cbn [map Np.mul Np.sum fold_right]. f_equal. exact IH.
Qed.







Lemma clip_range (x : Q) : 0 <= Np.clip x 0 1 <= 1.
Proof.
  unfold Np.clip. split.
  - apply Q.min_glb; [apply Q.le_max_r | lra].
  - apply Q.le_min_r.
Qed.




Lemma take_ok (arr : list Q) (indices : list nat) :
  Forall (fun i => (i < List.length arr)%nat) indices ->
  Np.take arr indices = Ok (map (fun i => nth i arr 0) indices).
Proof.
  induction 1 as [|i rest Hi _ IH]; [reflexivity|].
  cbn [Np.take map]. rewrite IH.
  destruct (nth_error arr i) as [x|] eqn:E.
  - rewrite (nth_error_nth _ _ 0 E). reflexivity.
  - apply nth_error_None in E. lia.
Qed.

Lemma take_out_of_range (arr : list Q) (indices : list nat) (i : nat) :
  In i indices -> (List.length arr <= i)%nat -> Np.take arr indices = Raise IndexError.
Proof.
  intros Hin Hi. induction indices as [|j rest IH]; [contradiction|].
  cbn [Np.take].
  destruct (nth_error arr j) as [x|] eqn:E; [|reflexivity].
  destruct Hin as [->|Hin].
  - apply nth_error_None in Hi. congruence.
  - rewrite (IH Hin). reflexivity.
Qed.

End NumericFacts.

(** ** One call of [get_traffic_score], case by case *)

Section QueryFacts.
Context {metric : Metric}.

Lemma in_firstn {A} (n : nat) (l : list A) (a : A) :
  In a (firstn n l) -> In a l.
Proof.
  revert l. induction n as [|n IH]; intros [|h r] H; cbn in H; try contradiction.
  destruct H as [H|H]; [left; exact H | right; apply IH; exact H].
Qed.

Lemma padded_length (t : cKDTree) (x : point) (k : nat) :
  List.length (padded t x k) = k.
Proof.
  unfold padded. rewrite length_firstn, length_app, repeat_length. lia.
Qed.

Lemma padded_within (t : cKDTree) (x : point) (k : nat) :
  (k <= size t)%nat ->
  padded t x k = map finite (firstn k (neighbours t x)).
Proof.
  intro Hk. unfold padded. rewrite firstn_app, length_map, neighbours_length.
  replace (k - size t)%nat with 0%nat by lia.
  rewrite firstn_O, app_nil_r, firstn_map. reflexivity.
Qed.

Lemma padded_beyond (t : cKDTree) (x : point) (k : nat) :
  (size t < k)%nat -> In (Inf, size t) (padded t x k).
Proof.
  intro Hk. unfold padded.
  rewrite firstn_app, length_map, neighbours_length.
  apply in_or_app. right.
  destruct (k - size t)%nat as [|m] eqn:E; [lia|].
  destruct k as [|k']; [lia|]. left. reflexivity.
Qed.

Lemma padded_head (t : cKDTree) (x : point) (k : nat) d0 i0 rest :
  neighbours t x = (d0, i0) :: rest ->
  exists tl, padded t x (S k) = (Fin d0, i0) :: tl.
Proof.
  intro H. unfold padded. rewrite H. cbn [map app firstn].
  eexists. reflexivity.
Qed.

Lemma query_arrays (t : cKDTree) (x : point) (k : positive) :
  k <> 1%positive ->
  query t x k = Arrays (map fst (padded t x (Pos.to_nat k)))
                       (map snd (padded t x (Pos.to_nat k))).
Proof. destruct k; [reflexivity | reflexivity | congruence]. Qed.

Lemma query_scalars (t : cKDTree) (x : point) :
  exists d i, query t x 1%positive = Scalars d i.
Proof.
  unfold query. destruct (padded t x (Pos.to_nat 1)) as [|[d i] r]; eauto.
Qed.

Lemma simple_get_unprepared (s : Simple.scorer) lon lat k md :
  Simple.kdtree s = None ->
  Simple.get_traffic_score lon lat k md s = (Raise not_prepared, s).
Proof.
  intro H. unfold Simple.get_traffic_score, bind, get. rewrite H. reflexivity.
Qed.

Lemma simple_get_scalar (s : Simple.scorer) t lon lat md :
  Simple.kdtree s = Some t ->
  Simple.get_traffic_score lon lat 1%positive md s = (Raise ScalarSubscript, s).
Proof.
  intro H. unfold Simple.get_traffic_score, bind, get. rewrite H.
  destruct (query_scalars t (lon, lat)) as [d [i E]]. rewrite E. reflexivity.
Qed.

Lemma simple_get_far (s : Simple.scorer) t lon lat k md d0 i0 rest :
  Simple.kdtree s = Some t ->
  k <> 1%positive ->
  neighbours t (lon, lat) = (d0, i0) :: rest ->
  md < d0 ->
  Simple.get_traffic_score lon lat k md s = (Ok 0, s).
Proof.
  intros Ht Hk Hn Hd. unfold Simple.get_traffic_score, bind, get. rewrite Ht.
  rewrite (query_arrays _ _ _ Hk).
  destruct (Pos.to_nat k) as [|k'] eqn:Ek; [lia|].
  destruct (padded_head t (lon, lat) k' _ _ _ Hn) as [tl Hp]. rewrite Hp.
  cbn [map fst Np.gt].
  destruct (Qle_bool d0 md) eqn:E; [|reflexivity].
  apply Qle_bool_iff in E. lra.
Qed.

(** With no point in the index every distance is infinite. *)
Lemma simple_get_empty (s : Simple.scorer) t lon lat k md :
  Simple.kdtree s = Some t ->
  k <> 1%positive ->
  size t = 0%nat ->
  Simple.get_traffic_score lon lat k md s = (Ok 0, s).
Proof.
  intros Ht Hk Hn. unfold Simple.get_traffic_score, bind, get. rewrite Ht.
  rewrite (query_arrays _ _ _ Hk).
  unfold padded.
  assert (E : neighbours t (lon, lat) = []).
  { apply length_zero_iff_nil. rewrite neighbours_length. exact Hn. }
  rewrite E. cbn [map app].
  destruct (Pos.to_nat k) as [|k'] eqn:Ek; [lia|]. reflexivity.
Qed.

Lemma simple_get_near (s : Simple.scorer) t scs lon lat k md d0 i0 rest :
  Simple.kdtree s = Some t ->
  Simple.traffic_scores s = Some scs ->
  k <> 1%positive ->
  (Pos.to_nat k <= size t)%nat ->
  (size t <= List.length scs)%nat ->
  neighbours t (lon, lat) = (d0, i0) :: rest ->
  d0 <= md ->
  Simple.get_traffic_score lon lat k md s
  = (Ok (code_value scs (firstn (Pos.to_nat k) (neighbours t (lon, lat)))), s).
Proof.
  intros Ht Hs Hk Hkn Hlen Hn Hd.
  unfold Simple.get_traffic_score, bind, get. rewrite Ht.
  rewrite (query_arrays _ _ _ Hk).
  rewrite (padded_within _ _ _ Hkn).
  assert (Enb : exists tl, firstn (Pos.to_nat k) (neighbours t (lon, lat)) = (d0, i0) :: tl).
  { rewrite Hn. destruct (Pos.to_nat k) eqn:E; [lia|]. cbn [firstn]. eauto. }
  destruct Enb as [tl Enb].
  assert (Hin : forall e, In e ((d0, i0) :: tl) -> (snd e < List.length scs)%nat).
  { intros [d j] He. rewrite <- Enb in He. apply in_firstn in He.
    apply neighbours_index_bound in He. cbn [snd]. lia. }
  rewrite Enb. set (nb := (d0, i0) :: tl) in *.
  rewrite !map_map. unfold nb at 1. cbn [map finite fst Np.gt].
  assert (E : Qle_bool d0 md = true) by (apply Qle_bool_iff; exact Hd).
  rewrite E. cbn [negb].
  unfold lift, Simple.scores_at. rewrite Hs.
  rewrite take_ok.
  - unfold ret, code_value. rewrite !map_map.
    rewrite (sum_mul_map (fun e => nth (snd (finite e)) scs 0)
                         (fun e => Np.inv_eps (fst (finite e))
                                   / Np.sum (map (fun x => Np.inv_eps (fst (finite x))) nb))).
    reflexivity.
  - apply Forall_forall. intros i Hi. apply in_map_iff in Hi.
    destruct Hi as [e [Hj He]]. subst i. apply (Hin e He).
Qed.

Lemma simple_get_short (s : Simple.scorer) t scs lon lat k md d0 i0 rest :
  Simple.kdtree s = Some t ->
  Simple.traffic_scores s = Some scs ->
  (size t < Pos.to_nat k)%nat ->
  (List.length scs <= size t)%nat ->
  neighbours t (lon, lat) = (d0, i0) :: rest ->
  d0 <= md ->
  Simple.get_traffic_score lon lat k md s = (Raise IndexError, s).
Proof.
  intros Ht Hs Hkn Hlen Hn Hd.
  assert (Hk : k <> 1%positive).
  { intros ->. pose proof (neighbours_length t (lon, lat)) as L.
    rewrite Hn in L. cbn in L. lia. }
  unfold Simple.get_traffic_score, bind, get. rewrite Ht.
  rewrite (query_arrays _ _ _ Hk).
  pose proof (padded_beyond t (lon, lat) _ Hkn) as Hin.
  destruct (Pos.to_nat k) as [|k'] eqn:Ek; [lia|].
  destruct (padded_head t (lon, lat) k' _ _ _ Hn) as [tl Hp].
  rewrite Hp in *. cbn [map fst Np.gt].
  assert (E : Qle_bool d0 md = true) by (apply Qle_bool_iff; exact Hd).
  rewrite E. cbn [negb].
  unfold lift, Simple.scores_at. rewrite Hs.
  rewrite (take_out_of_range scs _ (size t)); [reflexivity | | exact Hlen].
  change (In (snd (Inf, size t)) (map snd ((Fin d0, i0) :: tl))).
  apply in_map. exact Hin.
Qed.

End QueryFacts.

(** ** The nearest neighbour, and the interpolated value *)

Section InterpolationFacts.
Context {metric : Metric}.

Lemma neighbours_nonempty (pts : list point) (x : point) :
  pts <> [] -> exists d0 i0 rest, neighbours (build pts) x = (d0, i0) :: rest.
Proof.
  intro H. destruct (neighbours (build pts) x) as [|[d0 i0] rest] eqn:E.
  - apply (f_equal (@List.length _)) in E. rewrite neighbours_length in E.
    destruct pts; [congruence | discriminate].
  - eauto.
Qed.

(** The first entry the index reports is at the nearest distance. *)
Lemma neighbours_head_nearest (pts : list point) (x : point) d0 i0 rest d :
  neighbours (build pts) x = (d0, i0) :: rest ->
  nearest_distance pts x d ->
  d0 == d.
Proof.
  intros Hn [Hin Hmin]. apply Qle_antisym.
  - apply in_map_iff in Hin. destruct Hin as [p [Hp Hinp]].
    destruct (neighbours_complete (build pts) x p Hinp) as [i Hi].
    rewrite Hp, Hn in Hi. destruct Hi as [Hi|Hi].
    + inversion Hi; subst. apply Qle_refl.
    + pose proof (neighbours_ascending (build pts) x) as S.
      rewrite Hn in S. inversion S as [|? ? _ Hall]; subst.
      rewrite Forall_forall in Hall. apply (Hall _ Hi).
  - apply Hmin.
    assert (Hh : In (d0, i0) (neighbours (build pts) x)) by (rewrite Hn; left; reflexivity).
    apply neighbours_sound in Hh. destruct Hh as [p [Hp ->]].
    apply in_map. eapply nth_error_In. exact Hp.
Qed.

Lemma nearest_distance_nonempty (pts : list point) (x : point) (d : Q) :
  nearest_distance pts x d -> pts <> [].
Proof. intros [Hin _] ->. contradiction. Qed.



(** A hybrid scorer answers a query as the simple scorer holding the same
    arrays does, and is left as it was. *)
Lemma hybrid_get_as_simple (h : Hybrid.scorer) lon lat k md :
  Hybrid.get_traffic_score lon lat k md h
  = (fst (Simple.get_traffic_score lon lat k md (to_simple h)), h).
Proof.
  unfold Hybrid.get_traffic_score, Simple.get_traffic_score, bind, get.
  cbn [to_simple Simple.kdtree].
  destruct (Hybrid.kdtree h) as [t|]; [|reflexivity].
  destruct (query t (lon, lat) k) as [d i|ds idx]; [reflexivity|].
  destruct ds as [|d0 ds]; [reflexivity|].
  destruct (Np.gt d0 md); [reflexivity|].
  unfold lift, Hybrid.scores_at, Simple.scores_at, to_simple. cbn [Simple.traffic_scores].
  destruct (Hybrid.traffic_scores h) as [scs|]; [|reflexivity].
  destruct (Np.take scs idx); reflexivity.
Qed.

Lemma simple_get_state (s : Simple.scorer) lon lat k md :
  snd (Simple.get_traffic_score lon lat k md s) = s.
Proof.
  unfold Simple.get_traffic_score, bind, get.
  destruct (Simple.kdtree s) as [t|]; [|reflexivity].
  destruct (query t (lon, lat) k) as [d i|ds idx]; [reflexivity|].
  destruct ds as [|d0 ds]; [reflexivity|].
  destruct (Np.gt d0 md); [reflexivity|].
  unfold lift. destruct (Simple.scores_at s idx); reflexivity.
Qed.

Lemma hybrid_prepared_to_simple (h : Hybrid.scorer) pts scs :
  hybrid_prepared h pts scs -> simple_prepared (to_simple h) pts scs.
Proof. intro H. exact H. Qed.

End InterpolationFacts.

(** ** Queries on a prepared scorer *)

Section PreparedFacts.
Context {metric : Metric}.

Lemma hybrid_score_as_simple (h : Hybrid.scorer) lon lat k md :
  hybrid_score h lon lat k md = simple_score (to_simple h) lon lat k md.
Proof. unfold hybrid_score. rewrite hybrid_get_as_simple. reflexivity. Qed.

Lemma simple_far (s : Simple.scorer) pts scs lon lat k md d :
  simple_prepared s pts scs ->
  k <> 1%positive ->
  nearest_distance pts (lon, lat) d ->
  md < d ->
  simple_score s lon lat k md = Ok 0.
Proof.
  intros (_ & _ & Ht & _ & _) Hk Hd Hlt.
  destruct (neighbours_nonempty pts (lon, lat) (nearest_distance_nonempty _ _ _ Hd))
    as (d0 & i0 & rest & Hn).
  pose proof (neighbours_head_nearest _ _ _ _ _ _ Hn Hd) as E.
  unfold simple_score.
  rewrite (simple_get_far s _ lon lat k md d0 i0 rest Ht Hk Hn); [reflexivity|].
  rewrite E. exact Hlt.
Qed.

Lemma simple_near (s : Simple.scorer) pts scs lon lat k md d :
  simple_prepared s pts scs ->
  k <> 1%positive ->
  (Pos.to_nat k <= List.length pts)%nat ->
  nearest_distance pts (lon, lat) d ->
  d <= md ->
  simple_score s lon lat k md
  = Ok (code_value scs (firstn (Pos.to_nat k) (neighbours (build pts) (lon, lat)))).
Proof.
  intros (_ & Hs & Ht & Hlen & _) Hk Hkn Hd Hle.
  destruct (neighbours_nonempty pts (lon, lat) (nearest_distance_nonempty _ _ _ Hd))
    as (d0 & i0 & rest & Hn).
  pose proof (neighbours_head_nearest _ _ _ _ _ _ Hn Hd) as E.
  unfold simple_score.
  rewrite (simple_get_near s _ scs lon lat k md d0 i0 rest Ht Hs Hk); try assumption.
  - reflexivity.
  - unfold size; cbn [data]. lia.
  - rewrite E. exact Hle.
Qed.

Lemma simple_short (s : Simple.scorer) pts scs lon lat k md d :
  simple_prepared s pts scs ->
  (List.length pts < Pos.to_nat k)%nat ->
  nearest_distance pts (lon, lat) d ->
  d <= md ->
  simple_score s lon lat k md = Raise IndexError.
Proof.
  intros (_ & Hs & Ht & Hlen & _) Hkn Hd Hle.
  destruct (neighbours_nonempty pts (lon, lat) (nearest_distance_nonempty _ _ _ Hd))
    as (d0 & i0 & rest & Hn).
  pose proof (neighbours_head_nearest _ _ _ _ _ _ Hn Hd) as E.
  unfold simple_score.
  rewrite (simple_get_short s _ scs lon lat k md d0 i0 rest Ht Hs); try assumption.
  - reflexivity.
  - unfold size; cbn [data]. lia.
  - rewrite E. exact Hle.
Qed.

Lemma simple_single (s : Simple.scorer) pts scs lon lat md :
  simple_prepared s pts scs ->
  simple_score s lon lat 1%positive md = Raise ScalarSubscript.
Proof.
  intros (_ & _ & Ht & _ & _). unfold simple_score.
  rewrite (simple_get_scalar s _ lon lat md Ht). reflexivity.
Qed.

(** Some point is nearest as soon as there is a point. *)
Lemma nearest_distance_exists (pts : list point) (x : point) :
  pts <> [] -> exists d, nearest_distance pts x d.
Proof.
  intro H. destruct (neighbours_nonempty pts x H) as (d0 & i0 & rest & Hn).
  exists d0. split.
  - assert (Hh : In (d0, i0) (neighbours (build pts) x)) by (rewrite Hn; left; reflexivity).
    apply neighbours_sound in Hh. destruct Hh as [p [Hp ->]].
    apply in_map. eapply nth_error_In. exact Hp.
  - intros d' Hd'. apply in_map_iff in Hd'. destruct Hd' as [p [<- Hp]].
    destruct (neighbours_complete (build pts) x p Hp) as [i Hi].
    rewrite Hn in Hi. destruct Hi as [Hi|Hi].
    + inversion Hi. apply Qle_refl.
    + pose proof (neighbours_ascending (build pts) x) as S.
      rewrite Hn in S. inversion S as [|? ? _ Hall]; subst.
      rewrite Forall_forall in Hall. apply (Hall _ Hi).
Qed.

End PreparedFacts.

(** ** The two-station data set *)

Lemma two_stations_prepared :
  simple_prepared two_stations two_station_points two_station_scores.
Proof.
  repeat split; try (vm_compute; reflexivity).
  repeat constructor; vm_compute; discriminate.
Qed.

Lemma two_stations_hybrid_prepared :
  hybrid_prepared two_stations_hybrid two_station_points two_station_scores.
Proof.
  repeat split; try (vm_compute; reflexivity).
  repeat constructor; vm_compute; discriminate.
Qed.

(** The 95th percentile of the volumes 100 and 10 is 95.5. *)
Example percentile_two_stations :
  exists m, Percentile.percentile false [100; 10] 95 = Ok m /\ m == 955 # 10.
Proof. eexists. split; [reflexivity | vm_compute; reflexivity]. Qed.

(** Far from both stations the score is 0; at the first station, with
    [k = 2], it is close to that station's score 1. *)
Example far_query_scores_zero :
  simple_score two_stations 5 0 2 (2 # 100) = Ok 0.
Proof. vm_compute. reflexivity. Qed.

Example station_query_scores_high :
  exists v, simple_score two_stations 0 0 2 (2 # 100) = Ok v /\ 999 # 1000 < v.
Proof. eexists. split; vm_compute; reflexivity. Qed.

(** Ingestion keeps the most recent positive yearly reading, falls back to
    the named columns, and drops a row without a positive reading. *)
Example newest_positive_year_wins :
  Ingest.find_volume [("YEAR2021"%string, Ingest.Number 7);
                      ("YEAR2023"%string, Ingest.Number 0);
                      ("YEAR2022"%string, Ingest.Number 9);
                      ("AADT"%string, Ingest.Number 5)]
  = Some (Ingest.Val 9).
Proof. reflexivity. Qed.

Example fallback_after_null_years :
  Ingest.find_volume [("YEAR2023"%string, Ingest.NaN);
                      ("Volume"%string, Ingest.Text "n/a");
                      ("Count"%string, Ingest.Number 12)]
  = Some (Ingest.Val 12).
Proof. reflexivity. Qed.

Example idle_station_dropped : Ingest.observations [station_idle; station_b]
  = [((3 # 1000, 4 # 1000), 10)].
Proof. reflexivity. Qed.

Example euclidean_3_4_5 : euclidean (0, 0) (3 # 1000, 4 # 1000) == 5 # 1000.
Proof. vm_compute. reflexivity. Qed.

(** * The claims *)

(** ** C1: the cut-off looks at the nearest neighbour only *)




(** ** C2: the interpolated value *)

Section NearestFacts.
Context {metric : Metric}.




End NearestFacts.




(** ** C5: more neighbours asked for than points indexed *)

(** C5, as stated, fails: with two points indexed and the default [k = 5],
    a query at a station raises the index error of the score array, which
    no [raise] statement of the scorer produces, and which is not what the
    call with [k] reduced to 2 gives. *)
Lemma C5_counterexample :
  (List.length two_station_points < Pos.to_nat 5)%nat /\
  simple_score two_stations 0 0 5 (2 # 100) = Raise IndexError /\
  hybrid_score two_stations_hybrid 0 0 5 (2 # 100) = Raise IndexError /\
  raised_by_scorer IndexError = false /\
  returns (simple_score two_stations 0 0 2 (2 # 100)).
Proof.
  split; [vm_compute; lia|].
  repeat split; try (vm_compute; reflexivity).
  eexists. vm_compute. reflexivity.
Qed.

(** C5 (amended): when [k] exceeds the number [n >= 1] of indexed points,
    [k] is not reduced: the index reports the missing neighbours at
    infinite distance with index [n].  If the nearest point is farther than
    [max_distance] the call returns 0; otherwise the subscript of the score
    array by the index [n] raises [IndexError], an exception the scorer does
    not raise on purpose. *)
Theorem C5_more_neighbours_than_points {metric : Metric}
  (pts : list point) (scs : list Q) (lon lat : Q) (k : positive) (md d : Q) :
  (List.length pts < Pos.to_nat k)%nat ->
  nearest_distance pts (lon, lat) d ->
  (forall s, simple_prepared s pts scs ->
     (md < d -> simple_score s lon lat k md = Ok 0) /\
     (d <= md -> simple_score s lon lat k md = Raise IndexError)) /\
  (forall h, hybrid_prepared h pts scs ->
     (md < d -> hybrid_score h lon lat k md = Ok 0) /\
     (d <= md -> hybrid_score h lon lat k md = Raise IndexError)) /\
  raised_by_scorer IndexError = false.
Proof.
  intros Hkn Hd.
  assert (Hk1 : k <> 1%positive).
  { intros ->. pose proof (nearest_distance_nonempty _ _ _ Hd).
    destruct pts; [congruence | cbn in Hkn; lia]. }
  assert (S : forall s, simple_prepared s pts scs ->
     (md < d -> simple_score s lon lat k md = Ok 0) /\
     (d <= md -> simple_score s lon lat k md = Raise IndexError)).
  { intros s Hs. split; intro H.
    - eapply simple_far; eassumption.
    - eapply simple_short; eassumption. }
  split; [exact S|]. split; [|reflexivity].
  intros h Hh. rewrite hybrid_score_as_simple.
  apply S, hybrid_prepared_to_simple, Hh.
Qed.

Lemma C5_more_neighbours_than_points_witness :
  simple_score two_stations 0 0 5 (2 # 100) = Raise IndexError /\
  hybrid_score two_stations_hybrid (-1) 0 5 (1 # 100) = Ok 0.
Proof.
  split.
  - assert (Hd : nearest_distance two_station_points (0, 0) (dist (0, 0) (0, 0))).
    { split; [left; reflexivity|].
      intros d' [<-|[<-|[]]]; vm_compute; discriminate. }
    destruct (C5_more_neighbours_than_points two_station_points two_station_scores
                0 0 5 (2 # 100) _ ltac:(vm_compute; lia) Hd) as (S & _ & _).
    apply (S two_stations two_stations_prepared). vm_compute. discriminate.
  - assert (Hd : nearest_distance two_station_points (-1, 0) (dist (-1, 0) (0, 0))).
    { split; [left; reflexivity|].
      intros d' [<-|[<-|[]]]; vm_compute; discriminate. }
    destruct (C5_more_neighbours_than_points two_station_points two_station_scores
                (-1) 0 5 (1 # 100) _ ltac:(vm_compute; lia) Hd) as (_ & H & _).
    apply (H two_stations_hybrid two_stations_hybrid_prepared). reflexivity.
Defined.

(** ** C10: a single neighbour *)

Section Totality.
Context {metric : Metric}.

Lemma simple_total (s : Simple.scorer) pts scs lon lat k md :
  simple_prepared s pts scs ->
  k <> 1%positive ->
  (Pos.to_nat k <= List.length pts)%nat ->
  exists v, simple_score s lon lat k md = Ok v.
Proof.
  intros Hs Hk Hkn.
  assert (Hne : pts <> []) by (intros ->; cbn in Hkn; lia).
  destruct (nearest_distance_exists pts (lon, lat) Hne) as [d Hd].
  destruct (Qlt_le_dec md d) as [Hlt|Hle].
  - exists 0. eapply simple_far; eassumption.
  - eexists. eapply simple_near; eassumption.
Qed.

End Totality.

(** C10: on a scorer prepared over at least two points, a call with
    [k = 1] returns no score: the index hands back scalars and the
    subscript [distances[0]] raises.  For every [k] from 2 up to the number
    of points the call returns a score. *)
Theorem C10_single_neighbour_raises {metric : Metric}
  (pts : list point) (scs : list Q) :
  (2 <= List.length pts)%nat ->
  (forall s, simple_prepared s pts scs ->
     (forall lon lat md, simple_score s lon lat 1 md = Raise ScalarSubscript) /\
     (forall lon lat md k, (2 <= k)%positive -> (Pos.to_nat k <= List.length pts)%nat ->
        exists v, simple_score s lon lat k md = Ok v)) /\
  (forall h, hybrid_prepared h pts scs ->
     (forall lon lat md, hybrid_score h lon lat 1 md = Raise ScalarSubscript) /\
     (forall lon lat md k, (2 <= k)%positive -> (Pos.to_nat k <= List.length pts)%nat ->
        exists v, hybrid_score h lon lat k md = Ok v)).
Proof.
  intros _.
  assert (S : forall s, simple_prepared s pts scs ->
     (forall lon lat md, simple_score s lon lat 1 md = Raise ScalarSubscript) /\
     (forall lon lat md k, (2 <= k)%positive -> (Pos.to_nat k <= List.length pts)%nat ->
        exists v, simple_score s lon lat k md = Ok v)).
  { intros s Hs. split.
    - intros. eapply simple_single; eassumption.
    - intros lon lat md k Hk Hkn. eapply simple_total; try eassumption. lia. }
  split; [exact S|].
  intros h Hh. destruct (S _ (hybrid_prepared_to_simple _ _ _ Hh)) as [S1 S2]. split.
  - intros. rewrite hybrid_score_as_simple. apply S1.
  - intros. rewrite hybrid_score_as_simple. apply S2; assumption.
Qed.

Lemma C10_single_neighbour_raises_witness :
  simple_score two_stations 0 0 1 (2 # 100) = Raise ScalarSubscript /\
  hybrid_score two_stations_hybrid 0 0 1 (1 # 100) = Raise ScalarSubscript /\
  exists v, simple_score two_stations 0 0 2 (2 # 100) = Ok v.
Proof.
  destruct (C10_single_neighbour_raises two_station_points two_station_scores
              ltac:(vm_compute; lia)) as [S H].
  destruct (S two_stations two_stations_prepared) as [S1 S2].
  destruct (H two_stations_hybrid two_stations_hybrid_prepared) as [H1 _].
  split; [apply S1|]. split; [apply H1|].
  apply S2; [lia | vm_compute; lia].
Defined.

(** ** C9: the two variants answer alike *)

Section Variants.
Context {metric : Metric}.

(** A query reads the index and the score array and nothing else. *)
Lemma simple_score_reads (s s' : Simple.scorer) lon lat k md :
  Simple.kdtree s = Simple.kdtree s' ->
  Simple.traffic_scores s = Simple.traffic_scores s' ->
  simple_score s lon lat k md = simple_score s' lon lat k md.
Proof.
  intros Ht Hs. unfold simple_score, Simple.get_traffic_score, bind, get.
  rewrite Ht.
  destruct (Simple.kdtree s') as [t|]; [|reflexivity].
  destruct (query t (lon, lat) k) as [d i|ds idx]; [reflexivity|].
  destruct ds as [|d0 ds]; [reflexivity|].
  destruct (Np.gt d0 md); [reflexivity|].
  unfold lift, Simple.scores_at. rewrite Hs.
  destruct (Simple.traffic_scores s') as [scs|]; [|reflexivity].
  destruct (Np.take scs idx); reflexivity.
Qed.

End Variants.

(** C9: a simple and a hybrid scorer that hold the same points, scores and
    index return the same result for every query with [k] and
    [max_distance] given; the defaults of [k] agree (5) and the defaults of
    [max_distance] are 0.02 and 0.01. *)
Theorem C9_variants_agree {metric : Metric}
  (s : Simple.scorer) (h : Hybrid.scorer) (lon lat : Q) (k : positive) (md : Q) :
  Simple.traffic_points s = Hybrid.traffic_points h ->
  Simple.traffic_scores s = Hybrid.traffic_scores h ->
  Simple.kdtree s = Hybrid.kdtree h ->
  simple_score s lon lat k md = hybrid_score h lon lat k md /\
  Simple.default_k = Hybrid.default_k /\
  Simple.default_max_distance = 2 # 100 /\
  Hybrid.default_max_distance = 1 # 100.
Proof.
  intros _ Hs Ht. split; [|repeat split].
  rewrite hybrid_score_as_simple. apply simple_score_reads; assumption.
Qed.

Lemma C9_variants_agree_witness :
  simple_score two_stations 0 0 2 (2 # 100)
  = hybrid_score two_stations_hybrid 0 0 2 (2 # 100).
Proof.
  apply (C9_variants_agree two_stations two_stations_hybrid 0 0 2 (2 # 100));
    vm_compute; reflexivity.
Defined.

(** ** C7: a query at an indexed point *)

Section Coincidence.
Context {metric : Metric}.





End Coincidence.




Lemma five_stations_prepared :
  simple_prepared five_stations five_station_points five_station_scores.
Proof.
  repeat split; try (vm_compute; reflexivity).
  repeat constructor; vm_compute; discriminate.
Qed.

(** ** C3: a batch is the sequence of the single calls *)

Section BatchFacts.

(** A comprehension over calls that leave the object alone leaves it
    alone, and returns exactly when every call returns. *)
Lemma mapM_reader {S A B} (f : A -> M S B) (xs : list A) (s : S) :
  (forall x, snd (f x s) = s) ->
  snd (mapM f xs s) = s /\
  (forall out, fst (mapM f xs s) = Ok out <->
               Forall2 (fun x y => fst (f x s) = Ok y) xs out).
Proof.
  intro Hf. induction xs as [|x xs [IHs IHv]].
  - split; [reflexivity|]. intro out. cbn. split.
    + intro H. inversion H. constructor.
    + intro H. inversion H. reflexivity.
  - assert (E : mapM f (x :: xs) s
                = match f x s with
                  | (Ok y, s') =>
                      match mapM f xs s' with
                      | (Ok ys, s'') => (Ok (y :: ys), s'')
                      | (Raise e, s'') => (Raise e, s'')
                      end
                  | (Raise e, s') => (Raise e, s')
                  end) by reflexivity.
    rewrite E. clear E.
    pose proof (Hf x) as Hx.
    destruct (f x s) as [[y|e] s'] eqn:Ex; cbn [snd] in Hx; subst s'.
    + destruct (mapM f xs s) as [[ys|e] s'] eqn:Exs; cbn [snd fst] in IHs, IHv; subst s'.
      * split; [reflexivity|]. intro out. cbn [fst]. split.
        -- intro H. inversion H; subst. constructor; [rewrite Ex; reflexivity|].
           apply IHv. reflexivity.
        -- intro H. inversion H as [|? y' ? ys' Hy Hys]; subst.
           rewrite Ex in Hy. cbn [fst] in Hy. inversion Hy; subst.
           apply IHv in Hys. inversion Hys. reflexivity.
      * split; [reflexivity|]. intro out. cbn [fst]. split; [discriminate|].
        intro H. inversion H as [|? y' ? ys' Hy Hys]; subst.
        apply IHv in Hys. discriminate.
    + split; [reflexivity|]. intro out. cbn [fst]. split; [discriminate|].
      intro H. inversion H as [|? y' ? ys' Hy Hys]; subst.
      rewrite Ex in Hy. cbn [fst] in Hy. discriminate.
Qed.


Lemma Forall2_nth {A B} (R : A -> B -> Prop) (xs : list A) (ys : list B) :
  Forall2 R xs ys ->
  List.length ys = List.length xs /\
  forall i x, nth_error xs i = Some x -> exists y, nth_error ys i = Some y /\ R x y.
Proof.
  induction 1 as [|x y xs ys Hxy _ [IHl IHn]].
  - split; [reflexivity|]. intros [|i] x H; discriminate.
  - split; [cbn; lia|]. intros [|i] x' H; cbn in H.
    + inversion H; subst. exists y. split; [reflexivity | exact Hxy].
    + apply IHn, H.
Qed.

Lemma Forall2_total {A B} (R : A -> B -> Prop) (xs : list A) :
  (forall x, In x xs -> exists y, R x y) -> exists ys, Forall2 R xs ys.
Proof.
  induction xs as [|x xs IH]; intro H.
  - exists []. constructor.
  - destruct (H x (or_introl eq_refl)) as [y Hy].
    destruct IH as [ys Hys]; [intros; apply H; right; assumption|].
    exists (y :: ys). constructor; assumption.
Qed.

Context {metric : Metric}.

Lemma hybrid_get_state (h : Hybrid.scorer) lon lat k md :
  snd (Hybrid.get_traffic_score lon lat k md h) = h.
Proof. rewrite hybrid_get_as_simple. reflexivity. Qed.

Lemma simple_batch (s : Simple.scorer) (coords : list point) :
  snd (Simple.batch_score coords s) = s /\
  (forall out, fst (Simple.batch_score coords s) = Ok out <->
               Forall2 (fun c v => simple_default s c = Ok v) coords out).
Proof.
  unfold Simple.batch_score. apply mapM_reader.
  intro c. apply simple_get_state.
Qed.

Lemma hybrid_batch (h : Hybrid.scorer) (coords : list point) :
  snd (Hybrid.batch_score coords h) = h /\
  (forall out, fst (Hybrid.batch_score coords h) = Ok out <->
               Forall2 (fun c v => hybrid_default h c = Ok v) coords out).
Proof.
  unfold Hybrid.batch_score. apply mapM_reader.
  intro c. apply hybrid_get_state.
Qed.

End BatchFacts.

(** C3, as stated, fails on a scorer with fewer than five points: over the
    two stations, the batch over the single coordinate (0, 0) raises, in
    both variants, because the single call with the default [k = 5] does. *)
Lemma C3_counterexample :
  simple_prepared two_stations two_station_points two_station_scores /\
  fst (Simple.batch_score [(0, 0)] two_stations) = Raise IndexError /\
  fst (Hybrid.batch_score [(0, 0)] two_stations_hybrid) = Raise IndexError /\
  simple_default two_stations (0, 0) = Raise IndexError.
Proof.
  split; [exact two_stations_prepared|].
  repeat split; vm_compute; reflexivity.
Qed.

(** C3 (amended): on a scorer prepared over at least five points (the
    default [k]), [batch_score] returns a sequence as long as the list of
    coordinates whose i-th entry is the result of the single-point call on
    the i-th coordinate with the default [k] and [max_distance]; the scorer
    is unchanged. *)
Theorem C3_batch_is_pointwise {metric : Metric}
  (pts : list point) (scs : list Q) (coords : list point) :
  (5 <= List.length pts)%nat ->
  (forall s, simple_prepared s pts scs ->
     exists out, Simple.batch_score coords s = (Ok out, s) /\
       List.length out = List.length coords /\
       forall i c, nth_error coords i = Some c ->
         exists v, nth_error out i = Some v /\ simple_default s c = Ok v) /\
  (forall h, hybrid_prepared h pts scs ->
     exists out, Hybrid.batch_score coords h = (Ok out, h) /\
       List.length out = List.length coords /\
       forall i c, nth_error coords i = Some c ->
         exists v, nth_error out i = Some v /\ hybrid_default h c = Ok v).
Proof.
  intro Hn. split.
  - intros s Hs. destruct (simple_batch s coords) as [Hst Hout].
    destruct (Forall2_total (fun c v => simple_default s c = Ok v) coords) as [out F].
    { intros c _. eapply simple_total; [exact Hs | discriminate | exact Hn]. }
    exists out. split.
    + apply Hout in F. rewrite <- Hst at 2. rewrite <- F. apply surjective_pairing.
    + apply Forall2_nth in F. exact F.
  - intros h Hh. destruct (hybrid_batch h coords) as [Hst Hout].
    destruct (Forall2_total (fun c v => hybrid_default h c = Ok v) coords) as [out F].
    { intros c _. unfold hybrid_default. rewrite hybrid_score_as_simple.
      eapply simple_total;
        [exact (hybrid_prepared_to_simple _ _ _ Hh) | discriminate | exact Hn]. }
    exists out. split.
    + apply Hout in F. rewrite <- Hst at 2. rewrite <- F. apply surjective_pairing.
    + apply Forall2_nth in F. exact F.
Qed.

Lemma C3_batch_is_pointwise_witness :
  exists out, Simple.batch_score [(0, 0); (1, 1)] five_stations = (Ok out, five_stations) /\
    List.length out = 2%nat /\
    forall i c, nth_error [(0, 0); (1, 1)] i = Some c ->
      exists v, nth_error out i = Some v /\ simple_default five_stations c = Ok v.
Proof.
  destruct (C3_batch_is_pointwise five_station_points five_station_scores
              [(0, 0); (1, 1)] ltac:(vm_compute; lia)) as [S _].
  exact (S five_stations five_stations_prepared).
Defined.

(** ** [prepare_data], case by case *)

Section PrepareFacts.

Lemma simple_prepare_cached b (s : Simple.scorer) (fs : Simple.files) c :
  Simple.cache_file fs = Some c ->
  Simple.prepare_data b (s, fs)
  = (Ok tt,
     (Simple.set_kdtree
        (Simple.set_traffic_scores
           (Simple.set_traffic_points s (cached_points c)) (cached_scores c))
        (cached_kdtree c), fs)).
Proof.
  intro H. unfold Simple.prepare_data, bind, get. cbn [snd]. rewrite H. reflexivity.
Qed.


Lemma simple_prepare_empty b (s : Simple.scorer) (fs : Simple.files) gdf :
  Simple.cache_file fs = None ->
  Simple.traffic_file fs = Some gdf ->
  Ingest.observations gdf = [] ->
  Simple.prepare_data b (s, fs)
  = (Raise EmptyReduction, (Simple.set_traffic_points s [], fs)).
Proof.
  intros H1 H2 H3. unfold Simple.prepare_data, bind, get. cbn [snd].
  rewrite H1, H2, H3. reflexivity.
Qed.

Lemma simple_prepare_fresh b (s : Simple.scorer) (fs : Simple.files) gdf o obs :
  Simple.cache_file fs = None ->
  Simple.traffic_file fs = Some gdf ->
  Ingest.observations gdf = o :: obs ->
  exists max_traffic,
    Percentile.percentile b (map snd (o :: obs)) 95 = Ok max_traffic /\
    let points := map fst (o :: obs) in
    let scores := normalize (map snd (o :: obs)) max_traffic in
    Simple.prepare_data b (s, fs)
    = (Ok tt,
       (Simple.set_kdtree
          (Simple.set_traffic_scores (Simple.set_traffic_points s points) scores)
          (build points),
        Simple.write_cache fs
          {| cached_points := points; cached_scores := scores;
             cached_kdtree := build points |})).
Proof.
  intros H1 H2 H3. eexists. split; [reflexivity|].
  unfold Simple.prepare_data, bind, get. cbn [snd].
  rewrite H1, H2, H3. reflexivity.
Qed.


Lemma hybrid_prepare_cached b (h : Hybrid.scorer) (fs : Hybrid.files) c :
  Hybrid.cache_file fs = Some c ->
  Hybrid.prepare_data b (h, fs)
  = (Ok tt,
     (Hybrid.set_kdtree
        (Hybrid.set_traffic_scores
           (Hybrid.set_traffic_points h (cached_points c)) (cached_scores c))
        (cached_kdtree c), fs)).
Proof.
  intro H. unfold Hybrid.prepare_data, bind, get. cbn [snd]. rewrite H. reflexivity.
Qed.

(** With nothing to index the hybrid [prepare_data] fails in the
    percentile or, where that returns nan, in the construction of the
    index. *)
Lemma hybrid_prepare_empty b (h : Hybrid.scorer) (fs : Hybrid.files) gdf roads :
  Hybrid.cache_file fs = None ->
  Hybrid.download_traffic_data fs = Ok gdf ->
  Hybrid.download_road_network fs = Ok roads ->
  Ingest.observations gdf = [] ->
  roads = [] ->
  Hybrid.prepare_data b (h, fs)
  = if b
    then (Raise TreeShapeError,
          (Hybrid.set_traffic_scores
             (Hybrid.set_traffic_points
                (Hybrid.set_road_network (Hybrid.set_traffic_data h gdf) []) []) [],
           fs))
    else (Raise EmptyPercentile,
          (Hybrid.set_traffic_points
             (Hybrid.set_road_network (Hybrid.set_traffic_data h gdf) []) [],
           fs)).
Proof.
  intros H1 H2 H3 H4 ->. unfold Hybrid.prepare_data, bind, get, lift, Hybrid.assign.
  cbn [snd fst]. rewrite H1, H2. cbn [snd fst]. rewrite H3. cbn [snd fst Ingest.estimates].
  rewrite H4. destruct b; reflexivity.
Qed.


(** [prepare_data] over at least one observation yields a prepared
    scorer: aligned arrays, scores in [0, 1], the index over the stored
    locations. *)
Lemma normalize_unit (volumes : list Q) (max_traffic : Q) :
  Forall (fun v => 0 <= v <= 1) (normalize volumes max_traffic).
Proof.
  unfold normalize. apply Forall_forall. intros v Hv.
  apply in_map_iff in Hv. destruct Hv as [x [<- _]]. apply clip_range.
Qed.

Lemma simple_prepare_establishes b (s : Simple.scorer) (fs : Simple.files) gdf o obs :
  Simple.cache_file fs = None ->
  Simple.traffic_file fs = Some gdf ->
  Ingest.observations gdf = o :: obs ->
  exists scores,
    fst (Simple.prepare_data b (s, fs)) = Ok tt /\
    simple_prepared (fst (snd (Simple.prepare_data b (s, fs))))
                    (map fst (o :: obs)) scores.
Proof.
  intros H1 H2 H3.
  destruct (simple_prepare_fresh b s fs gdf o obs H1 H2 H3) as [m [_ H]].
  cbv zeta in H. rewrite H. eexists. split; [reflexivity|].
  cbn [fst snd]. repeat split.
  - unfold normalize. rewrite !length_map. reflexivity.
  - apply normalize_unit.
Qed.

End PrepareFacts.

(** ** C6: queries before [prepare_data] *)




(** ** C4: nothing to index *)

(** C4, as stated, fails: a table whose only station reads zero yields no
    observation, and [prepare_data] is ended by an exception of NumPy or
    SciPy, not by an error the scorer raises for the lack of data: the
    reduction [traffic_volumes.min()] in the simple scorer, the percentile
    or the construction of the index in the hybrid one. *)
Lemma C4_counterexample :
  Ingest.observations [station_idle] = [] /\
  fst (Simple.prepare_data false (Simple.init "data", idle_files))
  = Raise EmptyReduction /\
  raised_by_scorer EmptyReduction = false /\
  fst (Hybrid.prepare_data false (Hybrid.init "data", idle_sources))
  = Raise EmptyPercentile /\
  raised_by_scorer EmptyPercentile = false /\
  fst (Hybrid.prepare_data true (Hybrid.init "data", idle_sources))
  = Raise TreeShapeError /\
  raised_by_scorer TreeShapeError = false.
Proof. repeat split. Qed.

(** C4 (amended): when no cache exists and ingestion yields no observation
    (for the hybrid scorer: no observation and no road segment),
    [prepare_data] does not complete: an exception of the numeric library
    escapes to the caller (the empty reduction in the simple scorer; the
    empty percentile or the index construction in the hybrid one), no
    cache is written, the index stays unset, and every later query raises
    the not-prepared error instead of answering 0. *)
Theorem C4_no_observations {metric : Metric} :
  (forall b s fs gdf,
     Simple.cache_file fs = None ->
     Simple.traffic_file fs = Some gdf ->
     Ingest.observations gdf = [] ->
     Simple.kdtree s = None ->
     exists s',
       Simple.prepare_data b (s, fs) = (Raise EmptyReduction, (s', fs)) /\
       raised_by_scorer EmptyReduction = false /\
       Simple.kdtree s' = None /\
       forall lon lat k md, simple_score s' lon lat k md = Raise not_prepared) /\
  (forall b h fs gdf,
     Hybrid.cache_file fs = None ->
     Hybrid.download_traffic_data fs = Ok gdf ->
     Hybrid.download_road_network fs = Ok [] ->
     Ingest.observations gdf = [] ->
     Hybrid.kdtree h = None ->
     exists e h',
       Hybrid.prepare_data b (h, fs) = (Raise e, (h', fs)) /\
       e = (if b then TreeShapeError else EmptyPercentile) /\
       raised_by_scorer e = false /\
       Hybrid.kdtree h' = None /\
       forall lon lat k md, hybrid_score h' lon lat k md = Raise not_prepared).
Proof.
  split.
  - intros b s fs gdf H1 H2 H3 Hk.
    exists (Simple.set_traffic_points s []).
    split; [apply (simple_prepare_empty b s fs gdf H1 H2 H3)|].
    split; [reflexivity|]. split; [exact Hk|].
    intros. unfold simple_score. rewrite simple_get_unprepared; [reflexivity | exact Hk].
  - intros b h fs gdf H1 H2 H3 H4 Hk.
    pose proof (hybrid_prepare_empty b h fs gdf [] H1 H2 H3 H4 eq_refl) as E.
    destruct b.
    + eexists _, _. split; [exact E|]. split; [reflexivity|]. split; [reflexivity|].
      split; [exact Hk|].
      intros. rewrite hybrid_score_as_simple. unfold simple_score.
      rewrite simple_get_unprepared; [reflexivity | exact Hk].
    + eexists _, _. split; [exact E|]. split; [reflexivity|]. split; [reflexivity|].
      split; [exact Hk|].
      intros. rewrite hybrid_score_as_simple. unfold simple_score.
      rewrite simple_get_unprepared; [reflexivity | exact Hk].
Qed.

Lemma C4_no_observations_witness :
  exists s',
    Simple.prepare_data false (Simple.init "data", idle_files)
    = (Raise EmptyReduction, (s', idle_files)) /\
    raised_by_scorer EmptyReduction = false /\
    Simple.kdtree s' = None /\
    forall lon lat k md, simple_score s' lon lat k md = Raise not_prepared.
Proof.
  destruct (@C4_no_observations euclid) as [S _].
  apply (S false (Simple.init "data") idle_files [station_idle]); reflexivity.
Defined.

(** * Further properties of the code *)

(** ** Ingestion: which reading becomes the volume *)


Section IngestFacts.
Import Ingest.

Lemma positive_volume_spec (v : Q) : positive_volume (Val v) = true <-> 0 < v.
Proof.
  cbn [positive_volume]. rewrite negb_true_iff. split.
  - intro H. apply Qnot_le_lt. intro L. apply Qle_bool_iff in L. congruence.
  - intro H. destruct (Qle_bool v 0) eqn:E; [|reflexivity].
    apply Qle_bool_iff in E. lra.
Qed.

(** The loop over the yearly columns stops at the first one that holds a
    positive number. *)
Lemma scan_years_first_positive cols pre field post volume v :
  (forall g, In g pre -> not_positive_in cols g) ->
  lookup field cols = Some (Number v) ->
  0 < v ->
  scan_years cols (pre ++ field :: post) volume = Some (Val v).
Proof.
  intros Hpre Hf Hv. revert volume.
  induction pre as [|g pre IH]; intro volume; cbn [app scan_years].
  - rewrite Hf. apply positive_volume_spec in Hv. rewrite Hv. reflexivity.
  - assert (IH' := IH (fun g' Hg' => Hpre g' (or_intror Hg'))).
    destruct (lookup g cols) as [[w| | |t]|] eqn:E; try apply IH'.
    destruct (positive_volume (Val w)) eqn:P; [|apply IH'].
    apply positive_volume_spec in P.
    specialize (Hpre g (or_introl eq_refl) w E). lra.
Qed.

Lemma scan_fallback_first_positive cols pre field post volume v :
  (forall g, In g pre -> not_positive_in cols g) ->
  lookup field cols = Some (Number v) ->
  0 < v ->
  scan_fallback cols (pre ++ field :: post) volume = Some (Val v).
Proof.
  intros Hpre Hf Hv. revert volume.
  induction pre as [|g pre IH]; intro volume; cbn [app scan_fallback].
  - rewrite Hf. apply positive_volume_spec in Hv. rewrite Hv. reflexivity.
  - assert (IH' := IH (fun g' Hg' => Hpre g' (or_intror Hg'))).
    destruct (lookup g cols) as [[w| | |t]|] eqn:E; try apply IH'.
    destruct (positive_volume (Val w)) eqn:P; [|apply IH'].
    apply positive_volume_spec in P.
    specialize (Hpre g (or_introl eq_refl) w E). lra.
Qed.

(** Without a positive yearly reading the yearly loop leaves [volume]
    unset or not positive. *)
Lemma scan_years_no_positive cols fields volume :
  (forall g, In g fields -> not_positive_in cols g) ->
  (volume = None \/ exists w, volume = Some (Val w) /\ w <= 0) ->
  scan_years cols fields volume = None \/
  exists w, scan_years cols fields volume = Some (Val w) /\ w <= 0.
Proof.
  revert volume. induction fields as [|g fields IH]; intros volume Hall Hvol.
  - exact Hvol.
  - cbn [scan_years].
    assert (IH' := fun vol => IH vol (fun g' Hg' => Hall g' (or_intror Hg'))).
    destruct (lookup g cols) as [[w| | |t]|] eqn:E; try (apply IH'; exact Hvol).
    pose proof (Hall g (or_introl eq_refl) w E) as Hw.
    destruct (positive_volume (Val w)) eqn:P.
    + apply positive_volume_spec in P. lra.
    + apply IH'. right. exists w. split; [reflexivity | exact Hw].
Qed.

(** A volume that a loop returns was read from one of its columns, unless
    it was there before. *)
Lemma scan_years_source cols fields volume v :
  scan_years cols fields volume = Some (Val v) ->
  volume = Some (Val v) \/
  exists g, In g fields /\ lookup g cols = Some (Number v).
Proof.
  revert volume. induction fields as [|g fields IH]; intros volume H.
  - left. exact H.
  - cbn [scan_years] in H.
    assert (Step : forall vol, scan_years cols fields vol = Some (Val v) ->
              vol = Some (Val v) \/
              exists g', In g' (g :: fields) /\ lookup g' cols = Some (Number v)).
    { intros vol Hvol. destruct (IH vol Hvol) as [L|[g' [Hg' L]]];
        [left; exact L | right; exists g'; split; [right; exact Hg' | exact L]]. }
    destruct (lookup g cols) as [[w| | |t]|] eqn:E; try (apply Step; exact H).
    destruct (positive_volume (Val w)).
    + inversion H; subst. right. exists g. split; [left; reflexivity | exact E].
    + destruct (Step _ H) as [L|R]; [|right; exact R].
      inversion L; subst. right. exists g. split; [left; reflexivity | exact E].
Qed.

Lemma scan_fallback_source cols fields volume v :
  scan_fallback cols fields volume = Some (Val v) ->
  volume = Some (Val v) \/
  exists g, In g fields /\ lookup g cols = Some (Number v).
Proof.
  revert volume. induction fields as [|g fields IH]; intros volume H.
  - left. exact H.
  - cbn [scan_fallback] in H.
    assert (Step : forall vol, scan_fallback cols fields vol = Some (Val v) ->
              vol = Some (Val v) \/
              exists g', In g' (g :: fields) /\ lookup g' cols = Some (Number v)).
    { intros vol Hvol. destruct (IH vol Hvol) as [L|[g' [Hg' L]]];
        [left; exact L | right; exists g'; split; [right; exact Hg' | exact L]]. }
    destruct (lookup g cols) as [[w| | |t]|] eqn:E; try (apply Step; exact H).
    + destruct (positive_volume (Val w)).
      * inversion H; subst. right. exists g. split; [left; reflexivity | exact E].
      * destruct (Step _ H) as [L|R]; [|right; exact R].
        inversion L; subst. right. exists g. split; [left; reflexivity | exact E].
    + destruct (Step _ H) as [L|R]; [discriminate | right; exact R].
Qed.

Lemma find_volume_source cols v :
  find_volume cols = Some (Val v) ->
  exists g, In g (year_fields ++ fallback_fields) /\ lookup g cols = Some (Number v).
Proof.
  unfold find_volume. intro H.
  assert (Y : forall w, scan_years cols year_fields None = Some (Val w) ->
            exists g, In g (year_fields ++ fallback_fields)
                      /\ lookup g cols = Some (Number w)).
  { intros w Hw. destruct (scan_years_source _ _ _ _ Hw) as [L|[g [Hg L]]];
      [discriminate|]. exists g. split; [apply in_or_app; left; exact Hg | exact L]. }
  assert (F : forall vol, scan_fallback cols fallback_fields vol = Some (Val v) ->
            (forall w, vol = Some (Val w) -> scan_years cols year_fields None = vol) ->
            exists g, In g (year_fields ++ fallback_fields)
                      /\ lookup g cols = Some (Number v)).
  { intros vol Hvol Hy. destruct (scan_fallback_source _ _ _ _ Hvol) as [L|[g [Hg L]]].
    - apply Y. rewrite (Hy v L). exact L.
    - exists g. split; [apply in_or_app; right; exact Hg | exact L]. }
  destruct (scan_years cols year_fields None) as [vol|] eqn:E.
  - destruct (nonpositive_volume vol).
    + apply (F _ H). intros w _. reflexivity.
    + apply Y. exact H.
  - apply (F _ H). intros w Hw. discriminate.
Qed.

End IngestFacts.

Section IngestProperties.
Import Ingest.

Lemma map_seq_split {A} (f : nat -> A) (n i : nat) :
  (i < n)%nat ->
  map f (seq 0 n) = map f (seq 0 i) ++ f i :: map f (seq (S i) (n - S i)).
Proof.
  intro H. replace n with (i + S (n - S i))%nat at 1 by lia.
  rewrite seq_app, map_app, Nat.add_0_l, <- cons_seq, map_cons. reflexivity.
Qed.

Lemma year_fields_split (y : nat) :
  (2000 <= y <= 2024)%nat ->
  exists pre post,
    year_fields = pre ++ year_field y :: post /\
    forall g, In g pre -> exists y', (y < y' <= 2024)%nat /\ g = year_field y'.
Proof.
  intro H. unfold year_fields.
  exists (map (fun i => year_field (2024 - i)) (seq 0 (2024 - y))),
         (map (fun i => year_field (2024 - i)) (seq (S (2024 - y)) (25 - S (2024 - y)))).
  split.
  - rewrite (map_seq_split (fun i => year_field (2024 - i)) 25 (2024 - y)) by lia.
    do 2 f_equal. f_equal. lia.
  - intros g Hg. apply in_map_iff in Hg. destruct Hg as [i [<- Hi]].
    apply in_seq in Hi. exists (2024 - i)%nat. split; [lia | reflexivity].
Qed.

Lemma observations_of_length (r : row) : (List.length (observations_of r) <= 1)%nat.
Proof.
  unfold observations_of.
  destruct (geom r) as [g|]; [|cbn; lia].
  destruct g as [x y|c|c|t]; cbn [coords_of];
    try (destruct (find_volume (columns r)) as [[v|]|];
         try (cbn; lia);
         destruct (positive_volume (Val v)); cbn; lia).
Qed.

Lemma observations_sound (gdf : list row) (p : point) (v : Q) :
  In (p, v) (observations gdf) ->
  0 < v /\
  exists r g field,
    In r gdf /\ geom r = Some g /\ coords_of g = Some [p] /\
    In field (year_fields ++ fallback_fields) /\
    lookup field (columns r) = Some (Number v).
Proof.
  unfold observations. intro H. apply in_flat_map in H.
  destruct H as [r [Hr H]]. unfold observations_of in H.
  destruct (geom r) as [g|] eqn:Eg; [|contradiction].
  destruct (coords_of g) as [coords|] eqn:Ec; [|contradiction].
  destruct (find_volume (columns r)) as [[w|]|] eqn:Ev; try contradiction.
  destruct (positive_volume (Val w)) eqn:P; [|contradiction].
  apply in_map_iff in H. destruct H as [c [Hc Hin]]. inversion Hc; subst c w.
  split; [apply positive_volume_spec; exact P|].
  destruct (find_volume_source _ _ Ev) as [field [Hf Hl]].
  exists r, g, field. repeat split; try assumption.
  destruct g as [x y|c|c|t]; cbn [coords_of] in Ec; inversion Ec; subst coords;
    destruct Hin as [<-|[]]; reflexivity.
Qed.

(** X1: every observation that ingestion produces carries a strictly
    positive volume, read as a number from one of the probed columns of a
    row of the table, at the coordinate of that row's point or at the
    centroid of its line. *)
Theorem ingested_volume_is_positive (gdf : list row) (p : point) (v : Q) :
  In (p, v) (observations gdf) ->
  0 < v /\
  exists r g field,
    In r gdf /\ geom r = Some g /\ coords_of g = Some [p] /\
    In field (year_fields ++ fallback_fields) /\
    lookup field (columns r) = Some (Number v).
Proof. apply observations_sound. Qed.

Lemma ingested_volume_is_positive_witness :
  0 < 10 /\
  exists r g field,
    In r [station_idle; station_b] /\ geom r = Some g /\
    coords_of g = Some [(3 # 1000, 4 # 1000)] /\
    In field (year_fields ++ fallback_fields) /\
    lookup field (columns r) = Some (Number 10).
Proof.
  apply (ingested_volume_is_positive [station_idle; station_b]).
  left. reflexivity.
Defined.

(** X2: the most recent yearly column that holds a positive number gives
    the volume, whatever older years and the fallback columns hold. *)
Theorem newest_positive_year_gives_volume
  (cols : list (string * cell)) (y : nat) (v : Q) :
  (2000 <= y <= 2024)%nat ->
  lookup (year_field y) cols = Some (Number v) ->
  0 < v ->
  (forall y', (y < y' <= 2024)%nat -> not_positive_in cols (year_field y')) ->
  find_volume cols = Some (Val v).
Proof.
  intros Hy Hl Hv Hnewer. unfold find_volume.
  destruct (year_fields_split y Hy) as (pre & post & -> & Hpre).
  rewrite (scan_years_first_positive cols _ _ _ None v); try assumption.
  - replace (nonpositive_volume (Val v)) with false; [reflexivity|].
    cbn [nonpositive_volume]. symmetry.
    destruct (Qle_bool v 0) eqn:E; [|reflexivity].
    apply Qle_bool_iff in E. lra.
  - intros g Hg. destruct (Hpre g Hg) as [y' [Hy' ->]]. apply Hnewer, Hy'.
Qed.

Lemma newest_positive_year_gives_volume_witness :
  find_volume (columns station_years) = Some (Val 9).
Proof.
  apply (newest_positive_year_gives_volume (columns station_years) 2022 9).
  - lia.
  - reflexivity.
  - reflexivity.
  - intros y' Hy' w Hw.
    assert (E : y' = 2023%nat \/ y' = 2024%nat) by lia.
    destruct E as [-> | ->]; cbn in Hw; inversion Hw; subst; discriminate.
Defined.

(** X3: when no yearly column holds a positive number, the first of AADT,
    ADT, Volume, VOLUME, Traffic_Volume and Count that holds a positive
    number gives the volume. *)
Theorem fallback_columns_in_order
  (cols : list (string * cell)) (pre post : list string) (field : string) (v : Q) :
  fallback_fields = pre ++ field :: post ->
  (forall g, In g year_fields -> not_positive_in cols g) ->
  (forall g, In g pre -> not_positive_in cols g) ->
  lookup field cols = Some (Number v) ->
  0 < v ->
  find_volume cols = Some (Val v).
Proof.
  intros Hsplit Hyears Hpre Hl Hv. unfold find_volume. rewrite Hsplit.
  destruct (scan_years_no_positive cols year_fields None Hyears (or_introl eq_refl))
    as [E | [w [E Hw]]]; rewrite E.
  - apply scan_fallback_first_positive; assumption.
  - replace (nonpositive_volume (Val w)) with true.
    + apply scan_fallback_first_positive; assumption.
    + cbn [nonpositive_volume]. symmetry. apply Qle_bool_iff. exact Hw.
Qed.

Lemma fallback_columns_in_order_witness :
  find_volume (columns station_fallback) = Some (Val 12).
Proof.
  apply (fallback_columns_in_order (columns station_fallback)
           ["AADT"; "ADT"; "Volume"; "VOLUME"; "Traffic_Volume"]%string []
           "Count"%string 12).
  - reflexivity.
  - intros g Hg w Hw. unfold year_fields in Hg. cbn in Hg.
    repeat (destruct Hg as [<-|Hg]; [cbn in Hw; discriminate|]). contradiction.
  - intros g Hg w Hw.
    repeat (destruct Hg as [<-|Hg]; [cbn in Hw; discriminate|]). contradiction.
  - reflexivity.
  - reflexivity.
Defined.

(** X4: a row yields at most one observation, and none at all when it has
    no geometry, a geometry that is neither a point nor a line, or no
    probed column with a positive number: such a row gets no entry, not a
    zero score. *)
Theorem rows_without_reading_are_dropped (gdf : list row) (r : row) :
  geom r = None \/
  (exists t, geom r = Some (OtherGeometry t)) \/
  (forall g, In g (year_fields ++ fallback_fields) -> not_positive_in (columns r) g) ->
  observations_of r = [] /\
  (List.length (observations_of r) <= 1)%nat /\
  (List.length (observations gdf) <= List.length gdf)%nat.
Proof.
  intro H. split; [|split; [apply observations_of_length|]].
  - unfold observations_of. destruct H as [-> | [[t ->] | H]]; try reflexivity.
    destruct (geom r) as [g|]; [|reflexivity].
    destruct (coords_of g) as [coords|]; [|reflexivity].
    destruct (find_volume (columns r)) as [[w|]|] eqn:Ev; try reflexivity.
    destruct (positive_volume (Val w)) eqn:P; [|reflexivity].
    apply positive_volume_spec in P.
    destruct (find_volume_source _ _ Ev) as [field [Hf Hl]].
    specialize (H field Hf w Hl). lra.
  - unfold observations. induction gdf as [|r' gdf IH]; [cbn; lia|].
    cbn [flat_map]. rewrite length_app.
    pose proof (observations_of_length r'). cbn [List.length]. lia.
Qed.

Lemma rows_without_reading_are_dropped_witness :
  observations_of station_idle = [] /\
  (List.length (observations_of station_idle) <= 1)%nat /\
  (List.length (observations [station_idle; station_b]) <= 2)%nat.
Proof.
  apply (rows_without_reading_are_dropped [station_idle; station_b] station_idle).
  right. right. intros g Hg w Hw. unfold year_fields in Hg. cbn in Hg.
  repeat (destruct Hg as [<-|Hg];
          [cbn in Hw; first [discriminate | inversion Hw; subst; discriminate]|]).
  contradiction.
Defined.

End IngestProperties.

(** ** Normalization: the percentile and the scores *)

Section PercentileFacts.

Lemma psort_insert_perm (x : Q) (l : list Q) :
  Permutation (Percentile.insert x l) (x :: l).
Proof.
  induction l as [|h r IH]; cbn [Percentile.insert].
  - apply Permutation_refl.
  - destruct (Qle_bool x h).
    + apply Permutation_refl.
    + eapply perm_trans; [apply perm_skip, IH | apply perm_swap].
Qed.

Lemma psort_perm (l : list Q) : Permutation (Percentile.sort l) l.
Proof.
  induction l as [|h r IH]; cbn.
  - constructor.
  - eapply perm_trans; [apply psort_insert_perm | apply perm_skip, IH].
Qed.

Lemma psort_insert_sorted (x : Q) (l : list Q) :
  StronglySorted Qle l -> StronglySorted Qle (Percentile.insert x l).
Proof.
  induction 1 as [|h r Hs IH Hall]; cbn [Percentile.insert].
  - repeat constructor.
  - destruct (Qle_bool x h) eqn:E.
    + apply Qle_bool_iff in E.
      constructor; [constructor; assumption|].
      constructor; [exact E|].
      eapply Forall_impl; [|exact Hall].
      intros a Ha. eapply Qle_trans; eassumption.
    + constructor; [exact IH|].
      eapply Permutation_Forall; [apply Permutation_sym, psort_insert_perm|].
      constructor; [|exact Hall].
      apply Qlt_le_weak, Qnot_le_lt.
      intro H. apply Qle_bool_iff in H. congruence.
Qed.

Lemma psort_sorted (l : list Q) : StronglySorted Qle (Percentile.sort l).
Proof.
  induction l; cbn; [constructor | apply psort_insert_sorted; assumption].
Qed.

Lemma sorted_nth_le (a : list Q) (i j : nat) :
  StronglySorted Qle a ->
  (i <= j)%nat -> (j < List.length a)%nat ->
  nth i a 0 <= nth j a 0.
Proof.
  intro H. revert i j. induction H as [|h r Hs IH Hall]; intros i j Hij Hj.
  - cbn in Hj. lia.
  - destruct i as [|i], j as [|j]; cbn [nth]; try lia.
    + apply Qle_refl.
    + rewrite Forall_forall in Hall. apply Hall, nth_In. cbn in Hj. lia.
    + apply IH; [lia | cbn in Hj; lia].
Qed.

(** The percentile of a non-empty array lies between two of its elements,
    the lower one not above the upper one. *)
Lemma percentile_between (b : bool) (x : Q) (xs : list Q) (q : Q) :
  0 <= q <= 100 ->
  exists m x0 x1,
    Percentile.percentile b (x :: xs) q = Ok m /\
    In x0 (x :: xs) /\ In x1 (x :: xs) /\ x0 <= m /\ m <= x1.
Proof.
  intros [Hq0 Hq1].
  set (l := x :: xs).
  set (n := List.length l).
  set (a := Percentile.sort l).
  set (h := inject_Z (Z.of_nat (n - 1)) * q / 100).
  set (lo := Z.to_nat (Qfloor h)).
  set (hi := Nat.min (S lo) (n - 1)).
  assert (Hn : (1 <= n)%nat) by (unfold n, l; cbn; lia).
  assert (Hlen : List.length a = n) by (apply Permutation_length, psort_perm).
  assert (Hc : 0 <= inject_Z (Z.of_nat (n - 1))).
  { change 0 with (inject_Z 0). rewrite <- Zle_Qle. lia. }
  assert (Hh0 : 0 <= h).
  { unfold h. apply Qle_shift_div_l; [lra|]. rewrite Qmult_0_l.
    apply Qmult_le_0_compat; assumption. }
  assert (Hh1 : h <= inject_Z (Z.of_nat (n - 1))).
  { unfold h. apply Qle_shift_div_r; [lra|].
    set (c := inject_Z (Z.of_nat (n - 1))) in *. nra. }
  assert (Hf0 : (0 <= Qfloor h)%Z).
  { change 0%Z with (Qfloor (inject_Z 0)). apply Qfloor_resp_le. exact Hh0. }
  assert (Hf1 : (Qfloor h <= Z.of_nat (n - 1))%Z).
  { rewrite <- (Qfloor_Z (Z.of_nat (n - 1))). apply Qfloor_resp_le. exact Hh1. }
  assert (Hlo : (lo <= n - 1)%nat) by (unfold lo; lia).
  assert (Hhi : (lo <= hi)%nat /\ (hi <= n - 1)%nat) by (unfold hi; lia).
  set (g := h - inject_Z (Qfloor h)).
  assert (Hg0 : 0 <= g) by (unfold g; pose proof (Qfloor_le h); lra).
  assert (Hg1 : g <= 1).
  { unfold g. pose proof (Qlt_floor h) as L.
    rewrite inject_Z_plus in L. change (inject_Z 1) with 1 in L. lra. }
  set (x0 := nth lo a 0). set (x1 := nth hi a 0).
  assert (H01 : x0 <= x1).
  { apply sorted_nth_le; [apply psort_sorted | lia | lia]. }
  exists (x0 + g * (x1 - x0)), x0, x1.
  split; [reflexivity|].
  split; [apply (Permutation_in _ (psort_perm l)), nth_In; fold a; lia|].
  split; [apply (Permutation_in _ (psort_perm l)), nth_In; fold a; lia|].
  split; nra.
Qed.

Lemma clip_mono (x y : Q) : x <= y -> Np.clip x 0 1 <= Np.clip y 0 1.
Proof.
  intro H. unfold Np.clip. apply Q.min_le_compat_r, Q.max_le_compat_r, H.
Qed.

Lemma clip_saturates (x : Q) : 1 <= x -> Np.clip x 0 1 == 1.
Proof.
  intro H. unfold Np.clip. rewrite Q.max_l by lra. apply Q.min_r. exact H.
Qed.

Lemma normalize_nth (volumes : list Q) (m : Q) (i : nat) :
  nth_error (normalize volumes m) i
  = option_map (fun v => Np.clip (v / m) 0 1) (nth_error volumes i).
Proof. unfold normalize. apply nth_error_map. Qed.

End PercentileFacts.

Section NormalizeFacts.

(** What normalization does to a non-empty array of positive volumes. *)
Lemma normalize_positive (b : bool) (x : Q) (xs : list Q) :
  (forall y, In y (x :: xs) -> 0 < y) ->
  exists m,
    Percentile.percentile b (x :: xs) 95 = Ok m /\ 0 < m /\
    (forall v, In v (x :: xs) -> (forall y, In y (x :: xs) -> y <= v) ->
               Np.clip (v / m) 0 1 == 1) /\
    (forall v w, v <= w -> Np.clip (v / m) 0 1 <= Np.clip (w / m) 0 1).
Proof.
  intro Hpos.
  destruct (percentile_between b x xs 95 ltac:(lra)) as (m & x0 & x1 & E & H0 & H1 & L0 & L1).
  exists m. split; [exact E|].
  assert (Hm : 0 < m) by (specialize (Hpos x0 H0); lra).
  split; [exact Hm|]. split.
  - intros v Hv Hmax. apply clip_saturates.
    apply Qle_shift_div_l; [exact Hm|]. specialize (Hmax x1 H1). lra.
  - intros v w Hvw. apply clip_mono.
    unfold Qdiv. apply Qmult_le_compat_r; [exact Hvw|].
    apply Qlt_le_weak, Qinv_lt_0_compat, Hm.
Qed.

End NormalizeFacts.

(** X5: after [prepare_data] of the simple scorer has built from a table
    with at least one observation, the scores are aligned with the
    observations, every observation of the largest volume has score 1 (the
    95th percentile never exceeds the maximum), and a larger volume never
    gets a smaller score. *)
Theorem simple_scores_follow_volumes
  (b : bool) (s : Simple.scorer) (fs : Simple.files) (gdf : list Ingest.row) :
  Simple.cache_file fs = None ->
  Simple.traffic_file fs = Some gdf ->
  Ingest.observations gdf <> [] ->
  exists s' fs' scores,
    Simple.prepare_data b (s, fs) = (Ok tt, (s', fs')) /\
    Simple.traffic_points s' = Some (map fst (Ingest.observations gdf)) /\
    Simple.traffic_scores s' = Some scores /\
    List.length scores = List.length (Ingest.observations gdf) /\
    (forall i p v, nth_error (Ingest.observations gdf) i = Some (p, v) ->
       (forall p' v', In (p', v') (Ingest.observations gdf) -> v' <= v) ->
       exists sc, nth_error scores i = Some sc /\ sc == 1) /\
    (forall i j pi vi pj vj si sj,
       nth_error (Ingest.observations gdf) i = Some (pi, vi) ->
       nth_error (Ingest.observations gdf) j = Some (pj, vj) ->
       nth_error scores i = Some si -> nth_error scores j = Some sj ->
       vi <= vj -> si <= sj).
Proof.
  intros H1 H2 Hne.
  destruct (Ingest.observations gdf) as [|o obs] eqn:E; [congruence|].
  destruct (simple_prepare_fresh b s fs gdf o obs H1 H2 E) as [m [Em H]].
  cbv zeta in H.
  destruct (normalize_positive b (snd o) (map snd obs)) as (m' & Em' & Hm & Hmax & Hmono).
  { intros y Hy. change (In y (map snd (o :: obs))) in Hy.
    apply in_map_iff in Hy. destruct Hy as [[p v] [<- Hin]].
    rewrite <- E in Hin. apply (observations_sound gdf p v Hin). }
  change (snd o :: map snd obs) with (map snd (o :: obs)) in Em', Hmax.
  rewrite Em in Em'. inversion Em'; subst m'. clear Em'.
  eexists _, _, _. split; [exact H|].
  split; [reflexivity|]. split; [reflexivity|].
  split; [unfold normalize; rewrite !length_map; reflexivity|].
  split.
  - intros i p v Hi Hbig. rewrite normalize_nth, nth_error_map, Hi. cbn [option_map snd].
    eexists. split; [reflexivity|]. apply Hmax.
    + apply (in_map snd _ (p, v)). eapply nth_error_In. exact Hi.
    + intros y Hy. apply in_map_iff in Hy. destruct Hy as [[p' v'] [<- Hin]].
      apply (Hbig p' v' Hin).
  - intros i j pi vi pj vj si sj Hi Hj Hsi Hsj Hle.
    rewrite normalize_nth, nth_error_map, Hi in Hsi.
    rewrite normalize_nth, nth_error_map, Hj in Hsj.
    cbn [option_map snd] in Hsi, Hsj. inversion Hsi; inversion Hsj; subst.
    apply Hmono, Hle.
Qed.

Lemma simple_scores_follow_volumes_witness :
  exists s' fs' scores,
    Simple.prepare_data false (Simple.init "data", five_station_files)
    = (Ok tt, (s', fs')) /\
    Simple.traffic_scores s' = Some scores /\
    exists sc, nth_error scores 4 = Some sc /\ sc == 1.
Proof.
  destruct (simple_scores_follow_volumes false (Simple.init "data")
              five_station_files
              [station_at 0 10; station_at (1 # 1000) 20; station_at (2 # 1000) 30;
               station_at (3 # 1000) 40; station_at (4 # 1000) 50]
              eq_refl eq_refl ltac:(discriminate))
    as (s' & fs' & scores & H & _ & Hs & _ & Hmax & _).
  exists s', fs', scores. split; [exact H|]. split; [exact Hs|].
  apply (Hmax 4%nat (4 # 1000, 0) 50).
  - reflexivity.
  - intros p' v' Hin. cbn in Hin.
    repeat (destruct Hin as [Hin|Hin]; [inversion Hin; subst; discriminate|]).
    contradiction.
Defined.

(** ** The cache *)

Section CacheFacts.

Lemma hybrid_prepare_fresh b (h : Hybrid.scorer) (fs : Hybrid.files) gdf roads est :
  Hybrid.cache_file fs = None ->
  Hybrid.download_traffic_data fs = Ok gdf ->
  Hybrid.download_road_network fs = Ok roads ->
  Ingest.estimates roads = Ok est ->
  Ingest.observations gdf ++ est <> [] ->
  exists max_traffic,
    let all := Ingest.observations gdf ++ est in
    let points := map fst all in
    let scores := normalize (map snd all) max_traffic in
    Percentile.percentile b (map snd all) 95 = Ok max_traffic /\
    Hybrid.prepare_data b (h, fs)
    = (Ok tt,
       (Hybrid.set_kdtree
          (Hybrid.set_traffic_scores
             (Hybrid.set_traffic_points
                (Hybrid.set_road_network (Hybrid.set_traffic_data h gdf) roads)
                points)
             scores)
          (build points),
        Hybrid.write_cache fs
          {| cached_points := points; cached_scores := scores;
             cached_kdtree := build points |})).
Proof.
  intros H1 H2 H3 H4 Hne.
  unfold Hybrid.prepare_data, bind, get, lift, Hybrid.assign.
  cbn [snd fst]. rewrite H1, H2. cbn [snd fst]. rewrite H3. cbn [snd fst].
  rewrite H4. cbn [snd fst]. rewrite <- !map_app.
  destruct (Ingest.observations gdf ++ est) as [|o all] eqn:E; [congruence|].
  eexists. cbv zeta. split; reflexivity.
Qed.



End CacheFacts.


(** X7: the cache round trip of the simple scorer.  After a build from a
    table with at least one observation, [prepare_data] on any scorer over
    the files left behind loads the cache, whatever has become of the
    traffic file in between, does not write, and yields the same points,
    scores and index, hence the same result for every query. *)
Theorem simple_cache_round_trip {metric : Metric}
  (b b' : bool) (s0 s1 : Simple.scorer) (fs : Simple.files)
  (gdf : list Ingest.row) (later_source : option (list Ingest.row)) :
  Simple.cache_file fs = None ->
  Simple.traffic_file fs = Some gdf ->
  Ingest.observations gdf <> [] ->
  exists s' fs',
    Simple.prepare_data b (s0, fs) = (Ok tt, (s', fs')) /\
    let fs2 := {| Simple.cache_file := Simple.cache_file fs';
                  Simple.traffic_file := later_source |} in
    exists s'',
      Simple.prepare_data b' (s1, fs2) = (Ok tt, (s'', fs2)) /\
      Simple.traffic_points s'' = Simple.traffic_points s' /\
      Simple.traffic_scores s'' = Simple.traffic_scores s' /\
      Simple.kdtree s'' = Simple.kdtree s' /\
      forall lon lat k md,
        simple_score s'' lon lat k md = simple_score s' lon lat k md.
Proof.
  intros H1 H2 Hne.
  destruct (Ingest.observations gdf) as [|o obs] eqn:E; [congruence|].
  destruct (simple_prepare_fresh b s0 fs gdf o obs H1 H2 E) as [m [_ H]].
  cbv zeta in H. eexists _, _. split; [exact H|].
  cbv zeta. cbn [Simple.write_cache Simple.cache_file].
  eexists. split; [apply simple_prepare_cached; reflexivity|].
  repeat split. intros. apply simple_score_reads; reflexivity.
Qed.

Lemma simple_cache_round_trip_witness :
  exists s' fs',
    Simple.prepare_data false (Simple.init "data", two_station_files)
    = (Ok tt, (s', fs')) /\
    let fs2 := {| Simple.cache_file := Simple.cache_file fs';
                  Simple.traffic_file := None |} in
    exists s'',
      Simple.prepare_data false (Simple.init "other", fs2) = (Ok tt, (s'', fs2)) /\
      Simple.traffic_points s'' = Simple.traffic_points s' /\
      Simple.traffic_scores s'' = Simple.traffic_scores s' /\
      Simple.kdtree s'' = Simple.kdtree s' /\
      forall lon lat k md,
        simple_score s'' lon lat k md = simple_score s' lon lat k md.
Proof.
  apply (simple_cache_round_trip false false (Simple.init "data") (Simple.init "other")
           two_station_files [station_a; station_b] None);
    [reflexivity | reflexivity | discriminate].
Defined.

(** X8: the cache round trip of the hybrid scorer.  After a build,
    [prepare_data] over the files left behind loads the cache without
    calling either download helper (their outcome is irrelevant, they may
    fail), and yields the same points, scores and index, hence the same
    result for every query. *)
Theorem hybrid_cache_round_trip {metric : Metric}
  (b b' : bool) (h0 h1 : Hybrid.scorer) (fs : Hybrid.files)
  (gdf : list Ingest.row) (roads : list Ingest.road) (est : list (point * Q))
  (later_traffic : result (list Ingest.row))
  (later_roads : result (list Ingest.road)) :
  Hybrid.cache_file fs = None ->
  Hybrid.download_traffic_data fs = Ok gdf ->
  Hybrid.download_road_network fs = Ok roads ->
  Ingest.estimates roads = Ok est ->
  Ingest.observations gdf ++ est <> [] ->
  exists h' fs',
    Hybrid.prepare_data b (h0, fs) = (Ok tt, (h', fs')) /\
    let fs2 := {| Hybrid.cache_file := Hybrid.cache_file fs';
                  Hybrid.download_traffic_data := later_traffic;
                  Hybrid.download_road_network := later_roads |} in
    exists h'',
      Hybrid.prepare_data b' (h1, fs2) = (Ok tt, (h'', fs2)) /\
      Hybrid.traffic_points h'' = Hybrid.traffic_points h' /\
      Hybrid.traffic_scores h'' = Hybrid.traffic_scores h' /\
      Hybrid.kdtree h'' = Hybrid.kdtree h' /\
      forall lon lat k md,
        hybrid_score h'' lon lat k md = hybrid_score h' lon lat k md.
Proof.
  intros H1 H2 H3 H4 Hne.
  destruct (hybrid_prepare_fresh b h0 fs gdf roads est H1 H2 H3 H4 Hne) as [m [_ H]].
  cbv zeta in H. eexists _, _. split; [exact H|].
  cbv zeta. cbn [Hybrid.write_cache Hybrid.cache_file].
  eexists. split; [apply hybrid_prepare_cached; reflexivity|].
  repeat split. intros. rewrite !hybrid_score_as_simple.
  apply simple_score_reads; reflexivity.
Qed.

Lemma hybrid_cache_round_trip_witness :
  exists h' fs',
    Hybrid.prepare_data false (Hybrid.init "data", two_station_sources)
    = (Ok tt, (h', fs')) /\
    let fs2 := {| Hybrid.cache_file := Hybrid.cache_file fs';
                  Hybrid.download_traffic_data := Raise (DownloadError "offline");
                  Hybrid.download_road_network := Raise (DownloadError "offline") |} in
    exists h'',
      Hybrid.prepare_data false (Hybrid.init "other", fs2) = (Ok tt, (h'', fs2)) /\
      Hybrid.traffic_points h'' = Hybrid.traffic_points h' /\
      Hybrid.traffic_scores h'' = Hybrid.traffic_scores h' /\
      Hybrid.kdtree h'' = Hybrid.kdtree h' /\
      forall lon lat k md,
        hybrid_score h'' lon lat k md = hybrid_score h' lon lat k md.
Proof.
  apply (hybrid_cache_round_trip false false (Hybrid.init "data") (Hybrid.init "other")
           two_station_sources [station_a; station_b] [] []
           (Raise (DownloadError "offline")) (Raise (DownloadError "offline")));
    [reflexivity | reflexivity | reflexivity | reflexivity | discriminate].
Defined.

(** ** The road network in the hybrid scorer *)

Section RoadFacts.
Import Ingest.

Lemma road_type_scores_range (t : string) :
  2000 <= road_type_scores t <= 50000.
Proof.
  unfold road_type_scores.
  repeat match goal with
         | |- context [String.eqb ?a ?b] => destruct (String.eqb a b)
         end; split; vm_compute; discriminate.
Qed.

Lemma estimate_of_sound (r : road) (p : point) (v : Q) :
  estimate_of r = Ok (p, v) -> p = centroid r /\ 2000 <= v <= 50000.
Proof.
  unfold estimate_of. intro H.
  destruct (highway r) as [[t|[|t ts]]|]; inversion H; subst;
    (split; [reflexivity | apply road_type_scores_range]).
Qed.

Lemma estimates_pointwise (roads : list road) (est : list (point * Q)) :
  estimates roads = Ok est <-> Forall2 (fun r e => estimate_of r = Ok e) roads est.
Proof.
  revert est. induction roads as [|r roads IH]; intro est; cbn [estimates].
  - split; intro H; inversion H; constructor.
  - destruct (estimate_of r) as [o|e] eqn:Er.
    + destruct (estimates roads) as [os|e] eqn:Es.
      * split; intro H.
        -- inversion H; subst. constructor; [exact Er | apply IH; reflexivity].
        -- inversion H as [|? e' ? es' He Hes]; subst.
           rewrite Er in He. inversion He; subst.
           apply IH in Hes. inversion Hes. reflexivity.
      * split; [discriminate|]. intro H.
        inversion H as [|? e' ? es' He Hes]; subst. apply IH in Hes. discriminate.
    + split; [discriminate|]. intro H.
      inversion H as [|? e' ? es' He Hes]; subst. rewrite Er in He. discriminate.
Qed.

Lemma estimates_range (roads : list road) (est : list (point * Q)) :
  estimates roads = Ok est ->
  forall p v, In (p, v) est -> 2000 <= v <= 50000.
Proof.
  intro H. apply estimates_pointwise in H.
  induction H as [|r e rs es He _ IH]; intros p v Hin; [contradiction|].
  destruct Hin as [->|Hin]; [apply (estimate_of_sound r p v He) | apply (IH p v Hin)].
Qed.

Lemma estimates_total (roads : list road) :
  (forall r, In r roads -> highway r <> Some (Labels [])) ->
  exists est, estimates roads = Ok est /\ map fst est = map centroid roads /\
              forall v, In v (map snd est) -> 2000 <= v <= 50000.
Proof.
  induction roads as [|r roads IH]; intro H.
  - exists []. split; [reflexivity|]. split; [reflexivity|]. intros w Hw. destruct Hw.
  - destruct IH as (est & E & Hc & Hv); [intros; apply H; right; assumption|].
    assert (Hr : exists w, estimate_of r = Ok (centroid r, w)).
    { pose proof (H r (or_introl eq_refl)) as Hn. unfold estimate_of.
      destruct (highway r) as [[t|[|t ts]]|]; eauto. congruence. }
    destruct Hr as [v Hr]. exists ((centroid r, v) :: est).
    cbn [estimates]. rewrite Hr, E. split; [reflexivity|].
    split; [cbn [map fst]; rewrite Hc; reflexivity|].
    intros w [<-|Hw]; [|apply Hv, Hw].
    apply (estimate_of_sound r _ _ Hr).
Qed.

Lemma estimates_fail (roads : list road) (r : road) :
  In r roads -> highway r = Some (Labels []) -> estimates roads = Raise IndexError.
Proof.
  induction roads as [|r' roads IH]; intros Hin Hr; [contradiction|].
  cbn [estimates]. destruct Hin as [->|Hin].
  - unfold estimate_of. rewrite Hr. reflexivity.
  - destruct (estimate_of r') as [o|e] eqn:E.
    + rewrite (IH Hin Hr). reflexivity.
    + unfold estimate_of in E.
      destruct (highway r') as [[t|[|t ts]]|]; inversion E; reflexivity.
Qed.

End RoadFacts.

(** X9: the hybrid [prepare_data], once both downloads have succeeded and
    no road carries an empty list of classes, completes as soon as there
    is an observation or a road: it indexes the observations followed by
    one point per road segment, at its centroid, keeps the downloaded
    tables, and leaves a prepared scorer over [|observations| + |roads|]
    points. *)
Theorem hybrid_indexes_observations_then_roads
  (b : bool) (h : Hybrid.scorer) (fs : Hybrid.files)
  (gdf : list Ingest.row) (roads : list Ingest.road) :
  Hybrid.cache_file fs = None ->
  Hybrid.download_traffic_data fs = Ok gdf ->
  Hybrid.download_road_network fs = Ok roads ->
  (forall r, In r roads -> Ingest.highway r <> Some (Ingest.Labels [])) ->
  Ingest.observations gdf <> [] \/ roads <> [] ->
  exists h' fs' scores,
    Hybrid.prepare_data b (h, fs) = (Ok tt, (h', fs')) /\
    let points := map fst (Ingest.observations gdf) ++ map Ingest.centroid roads in
    hybrid_prepared h' points scores /\
    List.length points
    = (List.length (Ingest.observations gdf) + List.length roads)%nat /\
    Hybrid.traffic_data h' = Some gdf /\
    Hybrid.road_network h' = Some roads.
Proof.
  intros H1 H2 H3 Hlab Hne.
  destruct (estimates_total roads Hlab) as (est & E & Hc & _).
  destruct (hybrid_prepare_fresh b h fs gdf roads est H1 H2 H3 E) as [m [_ H]].
  { intro Habs. apply app_eq_nil in Habs. destruct Habs as [Ho He].
    destruct Hne as [Hne|Hne]; [congruence|].
    subst est. destruct roads; [congruence | discriminate]. }
  cbv zeta in H. eexists _, _, _. split; [exact H|].
  cbv zeta. rewrite <- Hc, <- map_app.
  split; [|split; [|split; reflexivity]].
  - repeat split.
    + unfold normalize. rewrite !length_map. reflexivity.
    + apply normalize_unit.
  - rewrite length_map, length_app.
    rewrite <- (length_map Ingest.centroid roads), <- Hc, length_map. reflexivity.
Qed.

Lemma hybrid_indexes_observations_then_roads_witness :
  exists h' fs' scores,
    Hybrid.prepare_data false (Hybrid.init "data", two_station_sources)
    = (Ok tt, (h', fs')) /\
    let points := map fst (Ingest.observations [station_a; station_b])
                  ++ map Ingest.centroid [] in
    hybrid_prepared h' points scores /\
    List.length points
    = (List.length (Ingest.observations [station_a; station_b]) + 0)%nat /\
    Hybrid.traffic_data h' = Some [station_a; station_b] /\
    Hybrid.road_network h' = Some [].
Proof.
  apply (hybrid_indexes_observations_then_roads false (Hybrid.init "data")
           two_station_sources [station_a; station_b] []).
  - reflexivity.
  - reflexivity.
  - reflexivity.
  - intros r [].
  - left. discriminate.
Defined.


(** X10: a road whose [highway] attribute is an empty list makes the
    hybrid [prepare_data] fail, after both downloads, on the subscript
    [highway_type[0]]: the downloaded tables are kept on the scorer, but no
    point is stored, the index is not touched and no cache is written. *)
Theorem empty_road_class_list_aborts_prepare
  (b : bool) (h : Hybrid.scorer) (fs : Hybrid.files)
  (gdf : list Ingest.row) (roads : list Ingest.road) (r : Ingest.road) :
  Hybrid.cache_file fs = None ->
  Hybrid.download_traffic_data fs = Ok gdf ->
  Hybrid.download_road_network fs = Ok roads ->
  In r roads ->
  Ingest.highway r = Some (Ingest.Labels []) ->
  exists h',
    Hybrid.prepare_data b (h, fs) = (Raise IndexError, (h', fs)) /\
    Hybrid.traffic_data h' = Some gdf /\
    Hybrid.road_network h' = Some roads /\
    Hybrid.traffic_points h' = Hybrid.traffic_points h /\
    Hybrid.traffic_scores h' = Hybrid.traffic_scores h /\
    Hybrid.kdtree h' = Hybrid.kdtree h.
Proof.
  intros H1 H2 H3 Hin Hr.
  pose proof (estimates_fail roads r Hin Hr) as E.
  eexists. split.
  - unfold Hybrid.prepare_data, bind, get, lift, Hybrid.assign.
    cbn [snd fst]. rewrite H1, H2. cbn [snd fst]. rewrite H3. cbn [snd fst].
    rewrite E. reflexivity.
  - repeat split.
Qed.

Lemma empty_road_class_list_aborts_prepare_witness :
  exists h',
    Hybrid.prepare_data false
      (Hybrid.init "data",
       {| Hybrid.cache_file := None;
          Hybrid.download_traffic_data := Ok [station_a];
          Hybrid.download_road_network :=
            Ok [{| Ingest.centroid := (0, 0);
                   Ingest.highway := Some (Ingest.Labels []) |}] |})
    = (Raise IndexError,
       (h', {| Hybrid.cache_file := None;
               Hybrid.download_traffic_data := Ok [station_a];
               Hybrid.download_road_network :=
                 Ok [{| Ingest.centroid := (0, 0);
                        Ingest.highway := Some (Ingest.Labels []) |}] |})) /\
    Hybrid.traffic_data h' = Some [station_a] /\
    Hybrid.road_network h'
    = Some [{| Ingest.centroid := (0, 0); Ingest.highway := Some (Ingest.Labels []) |}] /\
    Hybrid.traffic_points h' = None /\
    Hybrid.traffic_scores h' = None /\
    Hybrid.kdtree h' = None.
Proof.
  apply (empty_road_class_list_aborts_prepare false (Hybrid.init "data") _
           [station_a] _
           {| Ingest.centroid := (0, 0); Ingest.highway := Some (Ingest.Labels []) |});
    try reflexivity.
  left. reflexivity.
Defined.

(** X11: in the hybrid scorer every indexed volume is positive (readings
    are, and road estimates lie between 2000 and 50000), the entries of the
    largest volume have score 1, and a larger volume never gets a smaller
    score; observations and road estimates are normalized together. *)
Theorem hybrid_scores_follow_volumes
  (b : bool) (h : Hybrid.scorer) (fs : Hybrid.files)
  (gdf : list Ingest.row) (roads : list Ingest.road) (est : list (point * Q)) :
  Hybrid.cache_file fs = None ->
  Hybrid.download_traffic_data fs = Ok gdf ->
  Hybrid.download_road_network fs = Ok roads ->
  Ingest.estimates roads = Ok est ->
  Ingest.observations gdf ++ est <> [] ->
  let all := Ingest.observations gdf ++ est in
  exists h' fs' scores,
    Hybrid.prepare_data b (h, fs) = (Ok tt, (h', fs')) /\
    Hybrid.traffic_scores h' = Some scores /\
    List.length scores = List.length all /\
    (forall p v, In (p, v) all -> 0 < v) /\
    (forall p v, In (p, v) est -> 2000 <= v <= 50000) /\
    (forall i p v, nth_error all i = Some (p, v) ->
       (forall p' v', In (p', v') all -> v' <= v) ->
       exists sc, nth_error scores i = Some sc /\ sc == 1) /\
    (forall i j pi vi pj vj si sj,
       nth_error all i = Some (pi, vi) -> nth_error all j = Some (pj, vj) ->
       nth_error scores i = Some si -> nth_error scores j = Some sj ->
       vi <= vj -> si <= sj).
Proof.
  intros H1 H2 H3 H4 Hne all.
  destruct (hybrid_prepare_fresh b h fs gdf roads est H1 H2 H3 H4 Hne) as [m [Em H]].
  cbv zeta in Em, H. fold all in Em, H.
  assert (Hest : forall p v, In (p, v) est -> 2000 <= v <= 50000)
    by (intros p v; apply (estimates_range roads est H4)).
  assert (Hpos : forall p v, In (p, v) all -> 0 < v).
  { intros p v Hin. apply in_app_or in Hin. destruct Hin as [Hin|Hin].
    - apply (observations_sound gdf p v Hin).
    - specialize (Hest p v Hin). lra. }
  subst all.
  destruct (Ingest.observations gdf ++ est) as [|o rest] eqn:Eall; [congruence|].
  destruct (normalize_positive b (snd o) (map snd rest)) as (m' & Em' & Hm & Hmax & Hmono).
  { intros y Hy. change (In y (map snd (o :: rest))) in Hy.
    apply in_map_iff in Hy. destruct Hy as [[p v] [<- Hin]]. apply (Hpos p v Hin). }
  change (snd o :: map snd rest) with (map snd (o :: rest)) in Em', Hmax.
  rewrite Em in Em'. inversion Em'; subst m'. clear Em'.
  eexists _, _, _. split; [exact H|]. split; [reflexivity|].
  split; [unfold normalize; rewrite !length_map; reflexivity|].
  split; [exact Hpos|]. split; [exact Hest|]. split.
  - intros i p v Hi Hbig. rewrite normalize_nth, nth_error_map, Hi. cbn [option_map snd].
    eexists. split; [reflexivity|]. apply Hmax.
    + apply (in_map snd _ (p, v)). eapply nth_error_In. exact Hi.
    + intros y Hy. apply in_map_iff in Hy. destruct Hy as [[p' v'] [<- Hin]].
      apply (Hbig p' v' Hin).
  - intros i j pi vi pj vj si sj Hi Hj Hsi Hsj Hle.
    rewrite normalize_nth, nth_error_map, Hi in Hsi.
    rewrite normalize_nth, nth_error_map, Hj in Hsj.
    cbn [option_map snd] in Hsi, Hsj. inversion Hsi; inversion Hsj; subst.
    apply Hmono, Hle.
Qed.

Lemma hybrid_scores_follow_volumes_witness :
  exists h' fs' scores,
    Hybrid.prepare_data false (Hybrid.init "data", stations_and_motorway)
    = (Ok tt, (h', fs')) /\
    Hybrid.traffic_scores h' = Some scores /\
    exists sc, nth_error scores 2 = Some sc /\ sc == 1.
Proof.
  destruct (hybrid_scores_follow_volumes false (Hybrid.init "data")
              stations_and_motorway [station_a; station_b] [motorway_segment]
              [((6 # 1000, 8 # 1000), 50000)]
              eq_refl eq_refl eq_refl eq_refl ltac:(discriminate))
    as (h' & fs' & scores & H & Hs & _ & _ & _ & Hmax & _).
  exists h', fs', scores. split; [exact H|]. split; [exact Hs|].
  apply (Hmax 2%nat (6 # 1000, 8 # 1000) 50000).
  - reflexivity.
  - intros p' v' Hin. cbn in Hin.
    repeat (destruct Hin as [Hin|Hin]; [inversion Hin; subst; discriminate|]).
    contradiction.
Defined.

(** ** More on the queries *)

Section QueryProperties.
Context {metric : Metric}.



End QueryProperties.

Section QueryTheorems.
Context {metric : Metric}.

Lemma simple_score_range (s : Simple.scorer) lon lat k md v :
  simple_score s lon lat k md = Ok v -> 0 <= v <= 1.
Proof.
  unfold simple_score, Simple.get_traffic_score, bind, get.
  destruct (Simple.kdtree s) as [t|]; [|discriminate].
  destruct (query t (lon, lat) k) as [d i|ds idx]; [discriminate|].
  destruct ds as [|d0 ds]; [discriminate|].
  destruct (Np.gt d0 md).
  - cbn. intro H. inversion H. lra.
  - unfold lift. destruct (Simple.scores_at s idx) as [picked|e]; [|discriminate].
    cbn. intro H. inversion H. apply clip_range.
Qed.

Lemma simple_score_gate (s : Simple.scorer) lon lat k md md' :
  md <= md' ->
  simple_score s lon lat k md = Ok 0 \/
  simple_score s lon lat k md = simple_score s lon lat k md'.
Proof.
  intro Hle. unfold simple_score, Simple.get_traffic_score, bind, get.
  destruct (Simple.kdtree s) as [t|]; [|right; reflexivity].
  destruct (query t (lon, lat) k) as [d i|ds idx]; [right; reflexivity|].
  destruct ds as [|d0 ds]; [right; reflexivity|].
  destruct (Np.gt d0 md) eqn:G; [left; reflexivity|].
  assert (G' : Np.gt d0 md' = false).
  { destruct d0 as [q|]; [|discriminate]. cbn [Np.gt] in *.
    apply negb_false_iff in G. apply negb_false_iff.
    apply Qle_bool_iff in G. apply Qle_bool_iff. lra. }
  rewrite G'. right. reflexivity.
Qed.

End QueryTheorems.

(** X12: whatever the scorer holds (also a cache whose arrays do not fit
    together) and whatever [k] and [max_distance] are, a score that
    [get_traffic_score] returns lies in [0, 1], in both variants. *)
Theorem returned_score_in_unit_interval {metric : Metric}
  (s : Simple.scorer) (h : Hybrid.scorer) (lon lat : Q) (k : positive) (md v : Q) :
  (simple_score s lon lat k md = Ok v -> 0 <= v <= 1) /\
  (hybrid_score h lon lat k md = Ok v -> 0 <= v <= 1).
Proof.
  split.
  - apply simple_score_range.
  - rewrite hybrid_score_as_simple. apply simple_score_range.
Qed.

Lemma returned_score_in_unit_interval_witness :
  exists v, simple_score two_stations 0 0 2 (2 # 100) = Ok v /\ 0 <= v <= 1.
Proof.
  eexists. split; [vm_compute; reflexivity|].
  refine (proj1 (returned_score_in_unit_interval two_stations two_stations_hybrid
                   0 0 2 (2 # 100) _) _).
  vm_compute. reflexivity.
Defined.



(** X14: [max_distance] only gates the answer.  Raising it never changes
    a result other than the 0 of the cut-off: for [md <= md'] the call with
    [md] either returns 0 or returns what the call with [md'] returns,
    exception included, in both variants. *)
Theorem max_distance_only_gates {metric : Metric}
  (s : Simple.scorer) (h : Hybrid.scorer) (lon lat : Q) (k : positive) (md md' : Q) :
  md <= md' ->
  (simple_score s lon lat k md = Ok 0 \/
   simple_score s lon lat k md = simple_score s lon lat k md') /\
  (hybrid_score h lon lat k md = Ok 0 \/
   hybrid_score h lon lat k md = hybrid_score h lon lat k md').
Proof.
  intro H. split.
  - apply simple_score_gate, H.
  - rewrite !hybrid_score_as_simple. apply simple_score_gate, H.
Qed.

Lemma max_distance_only_gates_witness :
  (simple_score two_stations 0 0 2 (1 # 100) = Ok 0 \/
   simple_score two_stations 0 0 2 (1 # 100) = simple_score two_stations 0 0 2 (2 # 100)) /\
  (hybrid_score two_stations_hybrid 0 0 2 (1 # 100) = Ok 0 \/
   hybrid_score two_stations_hybrid 0 0 2 (1 # 100)
   = hybrid_score two_stations_hybrid 0 0 2 (2 # 100)).
Proof.
  apply (max_distance_only_gates two_stations two_stations_hybrid 0 0 2 (1 # 100) (2 # 100)).
  vm_compute. discriminate.
Defined.

(** X15: scoring in chunks gives what scoring at once gives: the batch over
    [xs ++ ys] returns [out] exactly when the batches over [xs] and over
    [ys] return two sequences whose concatenation is [out]; in both
    variants. *)
Theorem batch_of_concatenation {metric : Metric}
  (s : Simple.scorer) (h : Hybrid.scorer) (xs ys : list point) (out : list Q) :
  (fst (Simple.batch_score (xs ++ ys) s) = Ok out <->
   exists a b, out = a ++ b /\
               fst (Simple.batch_score xs s) = Ok a /\
               fst (Simple.batch_score ys s) = Ok b) /\
  (fst (Hybrid.batch_score (xs ++ ys) h) = Ok out <->
   exists a b, out = a ++ b /\
               fst (Hybrid.batch_score xs h) = Ok a /\
               fst (Hybrid.batch_score ys h) = Ok b).
Proof.
  split.
  - destruct (simple_batch s (xs ++ ys)) as [_ Hxy].
    destruct (simple_batch s xs) as [_ Hx]. destruct (simple_batch s ys) as [_ Hy].
    rewrite Hxy. split.
    + intro F. apply Forall2_app_inv_l in F. destruct F as (a & b & Fa & Fb & ->).
      exists a, b. split; [reflexivity|]. split; [apply Hx, Fa | apply Hy, Fb].
    + intros (a & b & -> & Ha & Hb). apply Forall2_app; [apply Hx, Ha | apply Hy, Hb].
  - destruct (hybrid_batch h (xs ++ ys)) as [_ Hxy].
    destruct (hybrid_batch h xs) as [_ Hx]. destruct (hybrid_batch h ys) as [_ Hy].
    rewrite Hxy. split.
    + intro F. apply Forall2_app_inv_l in F. destruct F as (a & b & Fa & Fb & ->).
      exists a, b. split; [reflexivity|]. split; [apply Hx, Fa | apply Hy, Fb].
    + intros (a & b & -> & Ha & Hb). apply Forall2_app; [apply Hx, Ha | apply Hy, Hb].
Qed.

Lemma batch_of_concatenation_witness :
  exists a b,
    fst (Simple.batch_score [(0, 0)] five_stations) = Ok a /\
    fst (Simple.batch_score [(5, 5)] five_stations) = Ok b /\
    fst (Simple.batch_score [(0, 0); (5, 5)] five_stations) = Ok (a ++ b).
Proof.
  destruct (batch_of_concatenation five_stations two_stations_hybrid
              [(0, 0)] [(5, 5)]
              (match fst (Simple.batch_score [(0, 0); (5, 5)] five_stations) with
               | Ok out => out
               | Raise _ => []
               end)) as [[S _] _].
  destruct S as (a & b & E & Ha & Hb); [vm_compute; reflexivity|].
  exists a, b. split; [exact Ha|]. split; [exact Hb|].
  rewrite <- E. vm_compute. reflexivity.
Defined.

(** ** When [prepare_data] succeeds *)



(** ** The download helpers *)

Module DownloadFacts.
Import Downloads.

Lemma is_named_spec (names : list string) (c : string) :
  is_named names c = true <-> In (lower c) names.
Proof.
  unfold is_named. rewrite existsb_exists. split.
  - intros [n [Hin Heq]]. apply String.eqb_eq in Heq. subst n. exact Hin.
  - intros Hin. exists (lower c). split; [exact Hin | apply String.eqb_refl].
Qed.

Lemma find_column_leftmost (names columns : list string) (c : string) :
  find_column names columns = Some c <-> leftmost names columns c.
Proof.
  unfold find_column, leftmost. induction columns as [|x xs IH]; cbn [find].
  - split; [discriminate|]. intros [before [after [E _]]].
    destruct before; discriminate.
  - destruct (is_named names x) eqn:Ex.
    + split.
      * intros E. injection E as E. subst x. exists [], xs.
        split; [reflexivity|]. split; [apply is_named_spec; exact Ex|].
        intros b [].
      * intros [before [after [E [Hc Hb]]]]. destruct before as [|b before'].
        -- cbn in E. injection E as E _. subst x. reflexivity.
        -- cbn in E. injection E as E _. subst b. exfalso.
           apply (Hb x); [left; reflexivity | apply is_named_spec; exact Ex].
    + rewrite IH. split.
      * intros [before [after [E [Hc Hb]]]]. exists (x :: before), after.
        split; [cbn; rewrite E; reflexivity|]. split; [exact Hc|].
        intros b [Hb'|Hb'].
        -- subst b. intros Hin. apply is_named_spec in Hin. congruence.
        -- apply Hb; exact Hb'.
      * intros [before [after [E [Hc Hb]]]]. destruct before as [|b before'].
        -- cbn in E. injection E as E _. subst x.
           apply is_named_spec in Hc. congruence.
        -- cbn in E. injection E as _ E. exists before', after.
           split; [exact E|]. split; [exact Hc|].
           intros b' Hb'. apply Hb. right. exact Hb'.
Qed.

Lemma first_manual_skips (pre : list manual_file) (rest : list manual_file) :
  (forall g, In g pre -> load_manual g = None) ->
  first_manual (pre ++ rest) = first_manual rest.
Proof.
  induction pre as [|g pre IH]; intros H; [reflexivity|].
  cbn [app first_manual]. rewrite (H g (or_introl eq_refl)).
  apply IH. intros g' Hg'. apply H. right. exact Hg'.
Qed.

Lemma first_manual_none (files : list manual_file) :
  first_manual files = None <-> forall f, In f files -> load_manual f = None.
Proof.
  induction files as [|f files IH]; cbn [first_manual].
  - split; [intros _ f [] | reflexivity].
  - destruct (load_manual f) eqn:Ef.
    + split; [discriminate|]. intros H.
      specialize (H f (or_introl eq_refl)). congruence.
    + rewrite IH. split.
      * intros H g [Hg|Hg]; [subst g; exact Ef | apply H; exact Hg].
      * intros H g Hg. apply H. right. exact Hg.
Qed.

Lemma first_manual_some (files : list manual_file) (gdf : table) :
  first_manual files = Some gdf ->
  exists f, In f files /\ load_manual f = Some gdf.
Proof.
  induction files as [|f files IH]; cbn [first_manual]; [discriminate|].
  destruct (load_manual f) eqn:Ef.
  - intros E. injection E as E. subst t. exists f. split; [left; reflexivity | exact Ef].
  - intros E. destruct (IH E) as [g [Hg Eg]]. exists g. split; [right; exact Hg | exact Eg].
Qed.

(** Reading [brampton_traffic.geojson] is the first turn of the loop. *)
Lemma saved_file_is_read (net : network) (d : disk) (gdf : table) :
  brampton_geojson d = Some (Ok gdf) ->
  download_traffic_data net d = (Ok gdf, d).
Proof.
  intros E. unfold download_traffic_data, manual_files. rewrite E.
  reflexivity.
Qed.

Lemma first_download_fails (net : network) (attempts : list (result table))
    (d : disk) (e : exn) :
  fst (first_download net attempts d) = Raise e <->
  e = DownloadError failure_message /\
  forall a, In a attempts -> attempt_fails net a.
Proof.
  revert d. induction attempts as [|a rest IH]; intros d; cbn [first_download].
  - cbn [fst]. split.
    + intros E. injection E as E. split; [symmetry; exact E | intros a []].
    + intros [E _]. subst e. reflexivity.
  - destruct a as [gdf|e0].
    + destruct (to_file net gdf) as [reread|e1 remains] eqn:Ew.
      * cbn [fst]. split; [discriminate|].
        intros [_ H]. specialize (H (Ok gdf) (or_introl eq_refl)).
        cbn in H. destruct H as [e2 [r2 H]]. congruence.
      * rewrite IH. split.
        -- intros [E H]. split; [exact E|].
           intros a [Ha|Ha]; [subst a; cbn; exists e1, remains; exact Ew | apply H; exact Ha].
        -- intros [E H]. split; [exact E|]. intros a Ha. apply H. right. exact Ha.
    + rewrite IH. split.
      * intros [E H]. split; [exact E|].
        intros a [Ha|Ha]; [subst a; exact I | apply H; exact Ha].
      * intros [E H]. split; [exact E|]. intros a Ha. apply H. right. exact Ha.
Qed.

Lemma first_download_saves (net : network) (attempts : list (result table))
    (d : disk) (gdf : table) :
  fst (first_download net attempts d) = Ok gdf ->
  In (Ok gdf) attempts /\
  exists reread,
    to_file net gdf = Written reread /\
    brampton_geojson (snd (first_download net attempts d)) = Some reread.
Proof.
  revert d. induction attempts as [|a rest IH]; intros d; cbn [first_download].
  - cbn [fst]. discriminate.
  - destruct a as [g|e0].
    + destruct (to_file net g) as [reread|e1 remains] eqn:Ew.
      * cbn [fst snd]. intros E. injection E as E. subst g.
        split; [left; reflexivity|]. exists reread. split; [exact Ew | reflexivity].
      * intros E. destruct (IH _ E) as [Hin H]. split; [right; exact Hin | exact H].
    + intros E. destruct (IH _ E) as [Hin H]. split; [right; exact Hin | exact H].
Qed.

End DownloadFacts.

(** X18: [download_traffic_data] returns the table of the earliest manual
    file that can be used, in the order of [manual_files]; it then leaves
    the disk as it is and does not depend on the network. *)
Theorem earliest_usable_manual_file_wins (net : Downloads.network) (d : Downloads.disk)
    (pre post : list Downloads.manual_file) (f : Downloads.manual_file)
    (gdf : Downloads.table) :
  Downloads.manual_files d = pre ++ f :: post ->
  (forall g, In g pre -> Downloads.load_manual g = None) ->
  Downloads.load_manual f = Some gdf ->
  Downloads.download_traffic_data net d = (Ok gdf, d).
Proof.
  intros E Hpre Hf. unfold Downloads.download_traffic_data.
  rewrite E, (DownloadFacts.first_manual_skips pre (f :: post) Hpre).
  cbn [Downloads.first_manual]. rewrite Hf. reflexivity.
Qed.

Lemma earliest_usable_manual_file_wins_witness :
  Downloads.download_traffic_data offline manual_disk = (Ok [station_a], manual_disk).
Proof.
  apply (earliest_usable_manual_file_wins offline manual_disk
           [Downloads.GeoJson (Raise IndexError)]
           [Downloads.GeoJson (Ok [station_b]); Downloads.Absent]
           (Downloads.Csv (Ok xy_frame)) [station_a]).
  - reflexivity.
  - intros g [Hg|[]]. subst g. reflexivity.
  - reflexivity.
Defined.

(** X19: a CSV manual file is used exactly when it has a column whose
    lower-cased name is a latitude name and one whose lower-cased name is
    a longitude name and the points build; the columns taken are the
    leftmost such ones, longitude first in the points. *)
Theorem csv_used_iff_coordinate_columns (df : Downloads.csv_frame) (gdf : Downloads.table) :
  Downloads.load_manual (Downloads.Csv (Ok df)) = Some gdf <->
  exists lat_col lon_col,
    Downloads.leftmost Downloads.lat_names (Downloads.csv_columns df) lat_col /\
    Downloads.leftmost Downloads.lon_names (Downloads.csv_columns df) lon_col /\
    Downloads.with_points df lon_col lat_col = Ok gdf.
Proof.
  cbn [Downloads.load_manual]. split.
  - destruct (Downloads.find_column Downloads.lat_names (Downloads.csv_columns df))
      as [lat|] eqn:Elat; [|discriminate].
    destruct (Downloads.find_column Downloads.lon_names (Downloads.csv_columns df))
      as [lon|] eqn:Elon; [|discriminate].
    destruct (Downloads.with_points df lon lat) as [t|e] eqn:Ep; [|discriminate].
    intros E. injection E as E. subst t. exists lat, lon.
    split; [apply DownloadFacts.find_column_leftmost; exact Elat|].
    split; [apply DownloadFacts.find_column_leftmost; exact Elon | exact Ep].
  - intros [lat [lon [Hlat [Hlon Ep]]]].
    apply DownloadFacts.find_column_leftmost in Hlat.
    apply DownloadFacts.find_column_leftmost in Hlon.
    rewrite Hlat, Hlon, Ep. reflexivity.
Qed.

(** X20: [download_traffic_data] raises exactly when no manual file can be
    used and both download attempts fail (the download or the saving
    raised); whatever the causes were, the exception is the one with the
    fixed message. *)
Theorem download_fails_iff_every_source_fails (net : Downloads.network)
    (d : Downloads.disk) (e : exn) :
  fst (Downloads.download_traffic_data net d) = Raise e <->
  e = DownloadError Downloads.failure_message /\
  (forall f, In f (Downloads.manual_files d) -> Downloads.load_manual f = None) /\
  Downloads.attempt_fails net (Downloads.direct net) /\
  Downloads.attempt_fails net (Downloads.api net).
Proof.
  unfold Downloads.download_traffic_data.
  destruct (Downloads.first_manual (Downloads.manual_files d)) as [gdf|] eqn:Em.
  - cbn [fst]. split; [discriminate|]. intros [_ [H _]].
    apply DownloadFacts.first_manual_none in H. congruence.
  - rewrite DownloadFacts.first_download_fails. split.
    + intros [E H]. split; [exact E|].
      split; [apply DownloadFacts.first_manual_none; exact Em|].
      split; apply H; [left | right; left]; reflexivity.
    + intros [E [_ [H1 H2]]]. split; [exact E|].
      intros a [Ha|[Ha|[]]]; subst a; assumption.
Qed.

(** X21: when no manual file can be used, a table is returned only after
    it was downloaded by one of the two attempts and saved as
    brampton_traffic.geojson; if the saved file reads back as a table, any
    later call returns that table whatever the network does. *)
Theorem downloaded_table_is_saved_first (net : Downloads.network) (d : Downloads.disk)
    (gdf : Downloads.table) :
  (forall f, In f (Downloads.manual_files d) -> Downloads.load_manual f = None) ->
  fst (Downloads.download_traffic_data net d) = Ok gdf ->
  let d' := snd (Downloads.download_traffic_data net d) in
  (Downloads.direct net = Ok gdf \/ Downloads.api net = Ok gdf) /\
  exists reread,
    Downloads.to_file net gdf = Downloads.Written reread /\
    Downloads.brampton_geojson d' = Some reread /\
    forall saved net',
      reread = Ok saved ->
      Downloads.download_traffic_data net' d' = (Ok saved, d').
Proof.
  intros Hnone. apply DownloadFacts.first_manual_none in Hnone.
  unfold Downloads.download_traffic_data. rewrite Hnone.
  intros E. destruct (DownloadFacts.first_download_saves _ _ _ _ E)
    as [Hin [reread [Ew Ed]]].
  cbn zeta. split.
  - destruct Hin as [Ha|[Ha|[]]]; [left | right]; exact Ha.
  - exists reread. split; [exact Ew|]. split; [exact Ed|].
    intros saved net' Er. apply DownloadFacts.saved_file_is_read.
    rewrite Ed, Er. reflexivity.
Qed.

Lemma downloaded_table_is_saved_first_witness :
  let d' := snd (Downloads.download_traffic_data api_only empty_disk) in
  (Downloads.direct api_only = Ok [station_a; station_b] \/
   Downloads.api api_only = Ok [station_a; station_b]) /\
  exists reread,
    Downloads.to_file api_only [station_a; station_b] = Downloads.Written reread /\
    Downloads.brampton_geojson d' = Some reread /\
    forall saved net',
      reread = Ok saved ->
      Downloads.download_traffic_data net' d' = (Ok saved, d').
Proof.
  apply (downloaded_table_is_saved_first api_only empty_disk [station_a; station_b]).
  - intros f [H|[H|[H|[H|[]]]]]; subst f; reflexivity.
  - reflexivity.
Defined.

(** X22: once [download_road_network] has returned a road table, the cache
    file brampton_roads.pkl is in place and every later call answers from
    it alone: OSM is not asked again, and what the call gives is what
    loading the file gives. *)
Theorem road_network_served_from_cache (osm : result (list Ingest.road))
    (dump : list Ingest.road -> Downloads.write_outcome (list Ingest.road))
    (st : Downloads.road_store) (roads : list Ingest.road) :
  fst (Downloads.download_road_network osm dump st) = Ok roads ->
  let st' := snd (Downloads.download_road_network osm dump st) in
  exists loaded,
    Downloads.roads_cache st' = Some loaded /\
    (Downloads.roads_cache st <> None -> loaded = Ok roads) /\
    forall osm' dump',
      Downloads.download_road_network osm' dump' st' = (loaded, st').
Proof.
  unfold Downloads.download_road_network.
  destruct (Downloads.roads_cache st) as [loaded|] eqn:Ec.
  - cbn [fst snd]. intros E. subst loaded. exists (Ok roads).
    split; [exact Ec|]. split; [reflexivity|].
    intros osm' dump'. rewrite Ec. reflexivity.
  - destruct osm as [rs|e]; [|cbn [fst]; discriminate].
    destruct (dump rs) as [reread|e remains]; [|cbn [fst]; discriminate].
    cbn [fst snd]. intros E. injection E as E. subst rs.
    exists reread. split; [reflexivity|]. split; [intros H; congruence|].
    intros osm' dump'. reflexivity.
Qed.

Lemma road_network_served_from_cache_witness :
  let osm := Ok [motorway_segment] in
  let dump := fun rs : list Ingest.road => Downloads.Written (Ok rs) in
  let st := {| Downloads.roads_cache := None |} in
  let st' := snd (Downloads.download_road_network osm dump st) in
  exists loaded,
    Downloads.roads_cache st' = Some loaded /\
    (Downloads.roads_cache st <> None -> loaded = Ok [motorway_segment]) /\
    forall osm' dump',
      Downloads.download_road_network osm' dump' st' = (loaded, st').
Proof.
  apply (road_network_served_from_cache (Ok [motorway_segment])
           (fun rs => Downloads.Written (Ok rs))
           {| Downloads.roads_cache := None |} [motorway_segment]).
  reflexivity.
Defined.
